(** * NLTK Twitter client: retrieval-and-dispatch engine

    A shallow embedding of [nltk/twitter/twitterclient.py]: the streaming
    engine ([Streamer]), the paginated search engine ([Query]) and the two
    handlers ([TweetViewer], [TweetWriter]), followed by the properties of
    the handler protocol, the pagination cursor, the retry logic and the
    dispatch loops.

    Python objects are mutable and shared, so every method is a
    computation over one [World]: the engine object together with the
    handler registered on it, the clock and the directories the handler
    looks at.  Everything the program does to the outside (printing, file
    operations, network requests, sleeping, yielding a record to the
    consumer of a generator) is recorded as an [Event], oldest first. *)

From Stdlib Require Import ZArith List String Bool Lia.
Import ListNotations.
Local Open Scope string_scope.
Local Open Scope Z_scope.
Local Open Scope list_scope.

(** ** Data *)

(** A Tweet as the Twitter API returns it: a JSON object.  Only the keys
    the client looks at are kept; a key that may be missing is an
    [option].  ['created_at'] is kept as the instant it parses to (seconds,
    UTC). *)
Record Tweet : Type := mkTweet {
  t_id : Z;
  t_text : option string;
  t_created_at : option Z
}.

(** ['{0}.{1}.json{2}'.format(fname, timestamp, suffix)], kept as its three
    parts. *)
Record FileName : Type := mkFileName {
  fn_path : string;
  fn_timestamp : nat;
  fn_suffix : string
}.

(** A Python file object. *)
Record File : Type := mkFile {
  f_name : FileName;
  f_closed : bool
}.

Inductive exn : Type :=
| ValueError (msg : string)
| KeyError (key : string)
| AttributeError (msg : string)
| UnboundLocalError (var : string)
| TwythonError
| TwythonRateLimitError
| ChunkedEncodingError.

(** The lines the client prints. *)
Inductive Message : Type :=
| MsgText (text : string)
| MsgWritten (counter : Z)
| MsgWritingTo (fname : FileName)
| MsgDateLimit (date_limit : Z) (message : string) (tweet_date : Z)
| MsgNoTweets
| MsgNoMoreTweets
| MsgWaiting
| MsgFatal
| MsgStreamError
| MsgStatusCode (status_code : Z).

Inductive Endpoint : Type :=
| StatusesSample
| StatusesFilter (track follow lang : string).

Inductive Event : Type :=
| Printed (m : Message)
| Mkdir (path : string)
| Opened (f : FileName) (gz : bool)
| Wrote (f : FileName) (encoded : bool) (data : Tweet)
| Closed (f : FileName)
| Slept (seconds : Z)
| Disconnected
| StreamRequest (e : Endpoint)
| SearchRequest (count : Z) (max_id : option Z)
| Yielded (t : Tweet).

Inductive HandlerClass : Type := BasicTweetHandler | TweetViewer | TweetWriter.

(** The state of a handler object.  The first five fields are those of the
    handler protocol; the others are set by [TweetWriter.__init__] (and
    [max_id] by the search engine on any handler). *)
Record Handler : Type := mkHandler {
  cls : HandlerClass;
  limit : Z;
  counter : Z;
  do_stop : bool;
  date_limit : option Z;
  startingup : bool;
  fprefix : string;
  subdir : string;
  gzip_compress : bool;
  fname : FileName;
  stream : bool;
  repeat : bool;
  max_id : option Z;
  output : option File
}.

Definition set_counter (n : Z) (h : Handler) : Handler :=
  mkHandler (cls h) (limit h) n (do_stop h) (date_limit h) (startingup h)
    (fprefix h) (subdir h) (gzip_compress h) (fname h) (stream h) (repeat h)
    (max_id h) (output h).

Definition set_do_stop (b : bool) (h : Handler) : Handler :=
  mkHandler (cls h) (limit h) (counter h) b (date_limit h) (startingup h)
    (fprefix h) (subdir h) (gzip_compress h) (fname h) (stream h) (repeat h)
    (max_id h) (output h).

Definition set_startingup (b : bool) (h : Handler) : Handler :=
  mkHandler (cls h) (limit h) (counter h) (do_stop h) (date_limit h) b
    (fprefix h) (subdir h) (gzip_compress h) (fname h) (stream h) (repeat h)
    (max_id h) (output h).

Definition set_fname (f : FileName) (h : Handler) : Handler :=
  mkHandler (cls h) (limit h) (counter h) (do_stop h) (date_limit h)
    (startingup h) (fprefix h) (subdir h) (gzip_compress h) f (stream h)
    (repeat h) (max_id h) (output h).

Definition set_max_id (m : option Z) (h : Handler) : Handler :=
  mkHandler (cls h) (limit h) (counter h) (do_stop h) (date_limit h)
    (startingup h) (fprefix h) (subdir h) (gzip_compress h) (fname h)
    (stream h) (repeat h) m (output h).

Definition set_output (o : option File) (h : Handler) : Handler :=
  mkHandler (cls h) (limit h) (counter h) (do_stop h) (date_limit h)
    (startingup h) (fprefix h) (subdir h) (gzip_compress h) (fname h)
    (stream h) (repeat h) (max_id h) o.

(** The engine object ([Streamer] or [Query]: both keep [handler] and
    [do_continue]; [connected] is the flag of [TwythonStreamer]) and what it
    reads from its surroundings. *)
Record World : Type := mkWorld {
  handler : option Handler;
  do_continue : bool;
  connected : bool;
  clock : nat;
  dirs : list string
}.

Definition with_handler (o : option Handler) (w : World) : World :=
  mkWorld o (do_continue w) (connected w) (clock w) (dirs w).

Definition with_do_continue (b : bool) (w : World) : World :=
  mkWorld (handler w) b (connected w) (clock w) (dirs w).

Definition with_connected (b : bool) (w : World) : World :=
  mkWorld (handler w) (do_continue w) b (clock w) (dirs w).

Definition with_clock (n : nat) (w : World) : World :=
  mkWorld (handler w) (do_continue w) (connected w) n (dirs w).

Definition with_dirs (ds : list string) (w : World) : World :=
  mkWorld (handler w) (do_continue w) (connected w) (clock w) ds.

(** ** Computations: state, exceptions and a log of events *)

Inductive outcome (A : Type) : Type :=
| Return (a : A)
| Raise (e : exn).
Arguments Return {A} a.
Arguments Raise {A} e.

Definition M (A : Type) : Type := World -> outcome A * World * list Event.

Definition ret {A : Type} (a : A) : M A := fun w => (Return a, w, []).

Definition raise {A : Type} (e : exn) : M A := fun w => (Raise e, w, []).

Definition bind {A B : Type} (m : M A) (f : A -> M B) : M B :=
  fun w =>
    match m w with
    | (Return a, w1, ev1) =>
        let '(r, w2, ev2) := f a w1 in (r, w2, ev1 ++ ev2)
    | (Raise e, w1, ev1) => (Raise e, w1, ev1)
    end.

Notation "x <- m ;; k" := (bind m (fun x => k))
  (at level 61, m at next level, right associativity).
Notation "m ;; k" := (bind m (fun _ => k))
  (at level 61, right associativity).

Definition emit (e : Event) : M unit := fun w => (Return tt, w, [e]).

Definition get : M World := fun w => (Return w, w, []).

Definition modify (f : World -> World) : M unit := fun w => (Return tt, f w, []).

(** [self.handler.<attribute>]: fails on [None]. *)
Definition self_handler : M Handler :=
  fun w =>
    match handler w with
    | Some h => (Return h, w, [])
    | None => (Raise (AttributeError "NoneType"), w, [])
    end.

Definition update_handler (f : Handler -> Handler) : M unit :=
  h <- self_handler ;; modify (with_handler (Some (f h))).

(** What came out of a computation. *)
Definition result {A : Type} (r : outcome A * World * list Event) : outcome A :=
  fst (fst r).
Definition world {A : Type} (r : outcome A * World * list Event) : World :=
  snd (fst r).
Definition events {A : Type} (r : outcome A * World * list Event) : list Event :=
  snd r.

(** ** The handler protocol *)

Module TweetHandlerI.

(** Modelled from the spec: [TweetHandlerI.__init__] lives in
    nltk/twitter/api.py, which is not part of the sources at hand.  The
    spec lists the protocol state: [counter] (starts at 0), [limit],
    [do_stop] (not set), [date_limit] and [startingup] (no output target
    opened yet).  The remaining fields are given by the subclass. *)
Definition __init__ (c : HandlerClass) (limit : Z) (date_limit : option Z)
    (fprefix subdir : string) (gzip_compress : bool) (fname : FileName)
    (stream repeat : bool) : Handler :=
  mkHandler c limit 0 false date_limit true fprefix subdir gzip_compress
    fname stream repeat None None.

(** Modelled from the spec: the default continuation predicate of
    nltk/twitter/api.py (not part of the sources at hand).  The spec:
    "default policy: false once counter >= limit", [do_stop] is the
    "sticky early-termination flag", and "once do_stop becomes true ...
    do_continue() returns false immediately". *)
Definition do_continue : M bool :=
  h <- self_handler ;;
  ret ((counter h <? limit h) && negb (do_stop h)).

End TweetHandlerI.

Module TweetViewer.

Definition handle (data : Tweet) : M unit :=
  match t_text data with
  | None => raise (KeyError "text")
  | Some text =>
      emit (Printed (MsgText text)) ;;
      update_handler (fun h => set_counter (counter h + 1) h)
  end.

Definition on_finish : M unit :=
  h <- self_handler ;;
  emit (Printed (MsgWritten (counter h))).

End TweetViewer.

Module TweetWriter.

(** [os.path.join(subdir, fprefix)] for a relative [fprefix]. *)
Definition path_join (subdir fprefix : string) : string :=
  if String.eqb subdir "" then fprefix
  else String.append subdir (String.append "/" fprefix).

Definition timestamped_file : M FileName :=
  h <- self_handler ;;
  w <- get ;;
  (if negb (String.eqb (subdir h) "") then
     if existsb (String.eqb (subdir h)) (dirs w) then ret tt
     else emit (Mkdir (subdir h)) ;;
          modify (with_dirs (subdir h :: dirs w))
   else ret tt) ;;
  w <- get ;;
  let suffix := if gzip_compress h then ".gz" else "" in
  ret (mkFileName (path_join (subdir h) (fprefix h)) (clock w) suffix).

(** The constructor; [subdir] is the path [guess_path] resolved. *)
Definition __init__ (limit : Z) (date_limit : option Z) (stream : bool)
    (fprefix subdir : string) (repeat gzip_compress : bool) : M unit :=
  let self0 :=
    TweetHandlerI.__init__ TweetWriter limit date_limit fprefix subdir
      gzip_compress (mkFileName "" 0 "") stream repeat in
  modify (with_handler (Some self0)) ;;
  f <- timestamped_file ;;
  update_handler (set_fname f).

(** [self.output.write(...)] *)
Definition write (encoded : bool) (data : Tweet) : M unit :=
  h <- self_handler ;;
  match output h with
  | None => raise (AttributeError "write")
  | Some f =>
      if f_closed f then raise (ValueError "I/O operation on closed file")
      else emit (Wrote (f_name f) encoded data)
  end.

(** The date test of [handle]; [true] when the method returns early. *)
Definition date_limit_reached (data : Tweet) : M bool :=
  h <- self_handler ;;
  match date_limit h with
  | Some d =>
      match t_created_at data with
      | None => raise (KeyError "created_at")
      | Some tweet_date =>
          if ((tweet_date >? d) && Bool.eqb (stream h) true)
             || ((tweet_date <? d) && Bool.eqb (stream h) false)
          then
            let message := if stream h then "earlier" else "later" in
            emit (Printed (MsgDateLimit d message tweet_date)) ;;
            update_handler (set_do_stop true) ;;
            ret true
          else ret false
      end
  | None => ret false
  end.

Definition handle (data : Tweet) : M unit :=
  h <- self_handler ;;
  (if startingup h then
     emit (Opened (fname h) (gzip_compress h)) ;;
     update_handler (set_output (Some (mkFile (fname h) false))) ;;
     emit (Printed (MsgWritingTo (fname h)))
   else ret tt) ;;
  write (gzip_compress h) data ;;
  returned <- date_limit_reached data ;;
  if returned then ret tt
  else update_handler (set_startingup false).

Definition on_finish : M unit :=
  h <- self_handler ;;
  emit (Printed (MsgWritten (counter h))) ;;
  match output h with
  | Some f =>
      if f_closed f then ret tt
      else emit (Closed (f_name f)) ;;
           update_handler (set_output (Some (mkFile (f_name f) true)))
  | None => ret tt
  end.

Definition _restart_file : M unit :=
  on_finish ;;
  f <- timestamped_file ;;
  update_handler (set_fname f) ;;
  update_handler (set_startingup true) ;;
  update_handler (set_counter 0).

Definition do_continue : M bool :=
  h <- self_handler ;;
  if Bool.eqb (repeat h) false then TweetHandlerI.do_continue
  else if do_stop h then ret false
  else
    (if counter h =? limit h then _restart_file else ret tt) ;;
    ret true.

End TweetWriter.

(** Method calls on [self.handler] go to the class of the object.
    Modelled from the spec: [BasicTweetHandler] (nltk/twitter/api.py, not
    part of the sources at hand) "exists solely to cap record count": it has
    the protocol's state and default predicate, and its [handle] and
    [on_finish] do nothing. *)
Definition handler_handle (data : Tweet) : M unit :=
  h <- self_handler ;;
  match cls h with
  | TweetViewer => TweetViewer.handle data
  | TweetWriter => TweetWriter.handle data
  | BasicTweetHandler => ret tt
  end.

Definition handler_do_continue : M bool :=
  h <- self_handler ;;
  match cls h with
  | TweetWriter => TweetWriter.do_continue
  | _ => TweetHandlerI.do_continue
  end.

Definition handler_on_finish : M unit :=
  h <- self_handler ;;
  match cls h with
  | TweetViewer => TweetViewer.on_finish
  | TweetWriter => TweetWriter.on_finish
  | BasicTweetHandler => ret tt
  end.

(** [self.handler.counter += 1] *)
Definition handler_counter_incr : M unit :=
  update_handler (fun h => set_counter (counter h + 1) h).

(** ** Runs against a scripted remote side

    The remote side is a script: the answers it will give, in order.  A run
    ends [Finished] (the method returned), [Failed] (an exception left the
    method), [Waiting] (the script is used up: the call blocks on the
    network) or [OutOfFuel] (a loop was cut off by the model). *)

Inductive status : Type :=
| Finished
| Failed (e : exn)
| Waiting
| OutOfFuel.

Record Run (R : Type) : Type := mkRun {
  status_of : status;
  world_of : World;
  events_of : list Event;
  rest_of : list R
}.
Arguments mkRun {R}.
Arguments status_of {R}.
Arguments world_of {R}.
Arguments events_of {R}.
Arguments rest_of {R}.

Definition prepend {R : Type} (ev : list Event) (r : Run R) : Run R :=
  mkRun (status_of r) (world_of r) (ev ++ events_of r) (rest_of r).

(** ** The streaming engine *)

Module Streamer.

Definition __init__ (now : nat) (existing : list string) : World :=
  mkWorld None true false now existing.

Definition register (h : Handler) : M unit :=
  modify (with_handler (Some h)).

(** [TwythonStreamer.disconnect] *)
Definition disconnect : M unit :=
  emit Disconnected ;; modify (with_connected false).

Definition on_success (data : Tweet) : M unit :=
  w <- get ;;
  if do_continue w then
    match handler w with
    | Some _ =>
        match t_text data with
        | Some _ =>
            handler_counter_incr ;;
            handler_handle data ;;
            b <- handler_do_continue ;;
            modify (with_do_continue b)
        | None => ret tt
        end
    | None => raise (ValueError "No data handler has been registered.")
    end
  else
    disconnect ;;
    handler_on_finish.

Definition on_error (status_code : Z) : M unit :=
  emit (Printed (MsgStatusCode status_code)).

(** What happens on a streaming connection: a line arrives and decodes to
    a message, nothing arrives for some seconds, or the chunked response
    breaks. *)
Inductive Inbound : Type :=
| Message (data : Tweet)
| Tick (seconds : nat)
| Broken.

(** [self.statuses.sample()] and [self.statuses.filter(...)]: Twython opens
    the connection and reads it line by line.  For every line it has read
    it first looks whether the streamer is still connected: if not, it
    leaves its loop and the call returns; if so, it hands the decoded line
    to [on_success].  So a [disconnect] is noticed when the next line has
    been read, and that line is dropped.  Only lines that decode to a
    message are part of the model. *)
Fixpoint receive (script : list Inbound) (w : World) : Run Inbound :=
  match script with
  | [] => mkRun Waiting w [] []
  | Tick seconds :: rest =>
      receive rest (with_clock (clock w + seconds) w)
  | Broken :: rest => mkRun (Failed ChunkedEncodingError) w [] rest
  | Message data :: rest =>
      if connected w then
        match on_success data w with
        | (Return _, w1, ev) => prepend ev (receive rest w1)
        | (Raise e, w1, ev) => mkRun (Failed e) w1 ev rest
        end
      else mkRun Finished w [] rest
  end.

Definition statuses (e : Endpoint) (script : list Inbound) (w : World)
    : Run Inbound :=
  prepend [StreamRequest e] (receive script (with_connected true w)).

(** [while self.do_continue: try: <body> except ChunkedEncodingError: ...
    continue] *)
Fixpoint while_do_continue (fuel : nat)
    (body : list Inbound -> World -> Run Inbound)
    (script : list Inbound) (w : World) : Run Inbound :=
  match fuel with
  | O => mkRun OutOfFuel w [] script
  | S fuel' =>
      if do_continue w then
        let r := body script w in
        match status_of r with
        | Finished =>
            prepend (events_of r)
              (while_do_continue fuel' body (rest_of r) (world_of r))
        | Failed ChunkedEncodingError =>
            prepend (events_of r ++ [Printed MsgStreamError])
              (while_do_continue fuel' body (rest_of r) (world_of r))
        | _ => r
        end
      else mkRun Finished w [] script
  end.

Definition sample (script : list Inbound) (w : World) : Run Inbound :=
  while_do_continue (S (List.length script)) (statuses StatusesSample) script w.

Definition msg : string := "Please supply a value for 'track', 'follow'".

(** The [try] block of [filter]. *)
Definition filter_body (track follow lang : string)
    (script : list Inbound) (w : World) : Run Inbound :=
  if String.eqb track "" && String.eqb follow "" then
    mkRun (Failed (ValueError msg)) w [] script
  else statuses (StatusesFilter track follow lang) script w.

Definition filter (track follow lang : string)
    (script : list Inbound) (w : World) : Run Inbound :=
  while_do_continue (S (List.length script)) (filter_body track follow lang)
    script w.

End Streamer.

(** ** The search engine *)

Module Query.

Definition __init__ (now : nat) (existing : list string) : World :=
  mkWorld None true false now existing.

Definition register (h : Handler) : M unit :=
  modify (with_handler (Some h)).

(** What [self.search(...)] does: answers with a page, or raises.  Every
    request carries the same [q], [lang] and [result_type]; a
    [SearchRequest] records what differs, [count] and [max_id]. *)
Inductive Response : Type :=
| Statuses (statuses : list Tweet)
| RaisesTwythonRateLimitError
| RaisesTwythonError.

(** The local variables of [search_tweets] that live across iterations;
    [results] is [None] as long as the name is unbound. *)
Record Locals : Type := mkLocals {
  count_from_query : Z;
  local_max_id : option Z;
  retries : Z;
  results : option (list Tweet)
}.

Inductive Step : Type :=
| Next (l : Locals)
| Stop.

(** [if not max_id] *)
Definition truthy (max_id : option Z) : bool :=
  match max_id with
  | Some z => negb (z =? 0)
  | None => false
  end.

(** [len(results['statuses'])] *)
Definition len (statuses : list Tweet) : Z := Z.of_nat (List.length statuses).

(** [results['statuses'][count - 1]['id']], for [count >= 1] *)
Definition id_at (statuses : list Tweet) (i : Z) : Z :=
  t_id (nth (Z.to_nat i) statuses (mkTweet 0 None None)).

(** [for result in results['statuses']: yield result; ...]: the consumer
    of the generator runs at every [yield].  [true] when the generator
    returned from inside the loop. *)
Fixpoint yield_each (consume : Tweet -> M unit) (statuses : list Tweet)
    : M bool :=
  match statuses with
  | [] => ret false
  | result :: statuses' =>
      emit (Yielded result) ;;
      consume result ;;
      handler_counter_incr ;;
      b <- handler_do_continue ;;
      if Bool.eqb b false then ret true
      else yield_each consume statuses'
  end.

(** The initial page, once the request is answered. *)
Definition initial_page (consume : Tweet -> M unit) (statuses : list Tweet)
    : M Step :=
  let count := len statuses in
  if count =? 0 then
    emit (Printed MsgNoTweets) ;; ret Stop
  else
    let count_from_query := count in
    let max_id := id_at statuses (count - 1) - 1 in
    returned <- yield_each consume statuses ;;
    if returned then ret Stop
    else ret (Next (mkLocals count_from_query (Some max_id) 0 (Some statuses))).

(** The pagination loop after its [try] statement. *)
Definition process_results (consume : Tweet -> M unit) (l : Locals) : M Step :=
  match results l with
  | None => raise (UnboundLocalError "results")
  | Some statuses =>
      let count := len statuses in
      if count =? 0 then
        emit (Printed MsgNoMoreTweets) ;; ret Stop
      else
        let count_from_query := count_from_query l + count in
        let max_id := id_at statuses (count - 1) - 1 in
        update_handler (set_max_id (Some max_id)) ;;
        returned <- yield_each consume statuses ;;
        if returned then ret Stop
        else ret (Next (mkLocals count_from_query (Some max_id) (retries l)
                          (results l)))
  end.

(** One iteration of the pagination loop, once the request is answered. *)
Definition iteration (consume : Tweet -> M unit)
    (retries_after_twython_exception : Z) (answer : Response) (l : Locals)
    : M Step :=
  match answer with
  | Statuses statuses =>
      process_results consume
        (mkLocals (count_from_query l) (local_max_id l) (retries l)
           (Some statuses))
  | RaisesTwythonRateLimitError =>
      emit (Printed MsgWaiting) ;;
      emit (Slept (15 * 60)) ;;
      modify (fun w => with_clock (clock w + 900)%nat w) ;;
      ret (Next l)
  | RaisesTwythonError =>
      emit (Printed MsgFatal) ;;
      if retries_after_twython_exception =? retries l then raise TwythonError
      else
        process_results consume
          (mkLocals (count_from_query l) (local_max_id l) (retries l + 1)
             (results l))
  end.

Fixpoint pagination (consume : Tweet -> M unit) (limit : Z)
    (retries_after_twython_exception : Z) (script : list Response)
    (l : Locals) (w : World) {struct script} : Run Response :=
  if count_from_query l <? limit then
    let mcount := Z.min 100 (limit - count_from_query l) in
    let request := SearchRequest mcount (local_max_id l) in
    match script with
    | [] => mkRun Waiting w [request] []
    | answer :: script' =>
        match iteration consume retries_after_twython_exception answer l w with
        | (Return (Next l'), w', ev) =>
            prepend (request :: ev)
              (pagination consume limit retries_after_twython_exception
                 script' l' w')
        | (Return Stop, w', ev) => mkRun Finished w' (request :: ev) script'
        | (Raise e, w', ev) => mkRun (Failed e) w' (request :: ev) script'
        end
    end
  else mkRun Finished w [] script.

(** Modelled from the spec: [BasicTweetHandler(limit=limit)]
    (nltk/twitter/api.py, not part of the sources at hand), "a default
    handler capped at limit". *)
Definition default_handler (limit : Z) : Handler :=
  TweetHandlerI.__init__ BasicTweetHandler limit None "" "" false
    (mkFileName "" 0 "") false false.

(** The generator, driven to its end by a consumer that runs [consume] on
    every record it is handed. *)
Definition search_tweets (consume : Tweet -> M unit) (limit : Z)
    (max_id : option Z) (retries_after_twython_exception : Z)
    (script : list Response) (w : World) : Run Response :=
  let w0 :=
    match handler w with
    | None => with_handler (Some (default_handler limit)) w
    | Some _ => w
    end in
  if negb (truthy max_id) then
    let request := SearchRequest (Z.min 100 limit) None in
    match script with
    | [] => mkRun Waiting w0 [request] []
    | Statuses statuses :: script' =>
        match initial_page consume statuses w0 with
        | (Return (Next l), w1, ev) =>
            prepend (request :: ev)
              (pagination consume limit retries_after_twython_exception
                 script' l w1)
        | (Return Stop, w1, ev) => mkRun Finished w1 (request :: ev) script'
        | (Raise e, w1, ev) => mkRun (Failed e) w1 (request :: ev) script'
        end
    | RaisesTwythonRateLimitError :: script' =>
        mkRun (Failed TwythonRateLimitError) w0 [request] script'
    | RaisesTwythonError :: script' =>
        mkRun (Failed TwythonError) w0 [request] script'
    end
  else
    pagination consume limit retries_after_twython_exception script
      (mkLocals 0 max_id 0 None) w0.

(** [self.handler.repeat]: of the handler classes only [TweetWriter] sets
    the attribute. *)
Definition handler_repeat : M bool :=
  h <- self_handler ;;
  match cls h with
  | TweetWriter => ret (repeat h)
  | _ => raise (AttributeError "repeat")
  end.

(** [self.handler.do_continue() and self.handler.repeat] *)
Definition goes_on : M bool :=
  b <- handler_do_continue ;;
  if b then handler_repeat else ret false.

(** The cursor [_search_tweets] passes to the generator. *)
Definition cursor_of (w : World) : option Z :=
  match handler w with
  | Some h =>
      match cls h with
      | TweetWriter => max_id h
      | _ => None
      end
  | None => None
  end.

Definition finish {R : Type} (ev : list Event) (rest : list R) (w : World)
    : Run R :=
  match handler_on_finish w with
  | (Return _, w', ev') => mkRun Finished w' (ev ++ ev') rest
  | (Raise e, w', ev') => mkRun (Failed e) w' (ev ++ ev') rest
  end.

Fixpoint _search_tweets (fuel : nat) (limit : Z) (script : list Response)
    (w : World) : Run Response :=
  match fuel with
  | O => mkRun OutOfFuel w [] script
  | S fuel' =>
      let max_id := cursor_of w in
      let tweets := search_tweets handler_handle limit max_id 0 script w in
      match status_of tweets with
      | Finished =>
          match goes_on (world_of tweets) with
          | (Return true, w', ev) =>
              prepend (events_of tweets ++ ev)
                (_search_tweets fuel' limit (rest_of tweets) w')
          | (Return false, w', ev) =>
              finish (events_of tweets ++ ev) (rest_of tweets) w'
          | (Raise e, w', ev) =>
              mkRun (Failed e) w' (events_of tweets ++ ev) (rest_of tweets)
          end
      | _ => tweets
      end
  end.

End Query.

(** ** Looking up Tweets by id *)

Module Ids.

(** What [self.lookup_status(id=chunk)] does: answers with the Tweets it
    found, or raises. *)
Inductive Answer : Type :=
| Found (tweets : list Tweet)
| Raises.

(** What [expand_tweetids] and the iterable it returns do to the outside:
    the line printed, the lookups sent, the Tweets handed to the consumer
    of the iterable. *)
Inductive IdEvent : Type :=
| Counted (n : nat)
| LookupStatus (chunk : list string)
| Fetched (t : Tweet).

Section WithStrip.

(** [str.strip] *)
Variable strip : string -> string.

(** [[line.strip() for line in ids_f if line]] *)
Definition read_ids (ids_f : list string) : list string :=
  map strip (List.filter (fun line => negb (String.eqb line "")) ids_f).

(** [range(0, n, 100)] *)
Definition range100 (n : nat) : list nat :=
  map (fun k => (100 * k)%nat) (seq 0 ((n + 99) / 100)).

(** [[ids[i:i+100] for i in range(0, len(ids), 100)]] *)
Definition id_chunks (ids : list string) : list (list string) :=
  map (fun i => firstn 100 (skipn i ids)) (range100 (List.length ids)).

(** [itertools.chain.from_iterable(self.lookup_status(id=chunk) for chunk in
    id_chunks)], driven to its end: a chunk is looked up when the Tweets of
    the chunks before it have been handed out. *)
Fixpoint chain (chunks : list (list string)) (answers : list Answer)
    : status * list IdEvent * list Answer :=
  match chunks with
  | [] => (Finished, [], answers)
  | chunk :: chunks' =>
      match answers with
      | [] => (Waiting, [LookupStatus chunk], [])
      | Found tweets :: answers' =>
          let '(st, ev, rest) := chain chunks' answers' in
          (st, LookupStatus chunk :: map Fetched tweets ++ ev, rest)
      | Raises :: answers' =>
          (Failed TwythonError, [LookupStatus chunk], answers')
      end
  end.

Definition expand_tweetids (ids_f : list string) (verbose : bool)
    (answers : list Answer) : status * list IdEvent * list Answer :=
  let ids := read_ids ids_f in
  let counted := if verbose then [Counted (List.length ids)] else [] in
  let '(st, ev, rest) := chain (id_chunks ids) answers in
  (st, counted ++ ev, rest).

End WithStrip.

End Ids.

(** ** The wrapper class *)

Module Twitter.

(** A [Twitter] object: its streamer and its query engine. *)
Record t : Type := mk {
  streamer : World;
  query : World
}.

(** [TweetViewer(limit=limit, date_limit=date_limit)] or
    [TweetWriter(limit=limit, date_limit=date_limit, stream=stream,
    repeat=repeat, gzip_compress=gzip_compress)], registered on the engine
    the computation runs on.  [twitter_files] is the path [guess_path]
    resolves the default [subdir] to. *)
Definition new_handler (to_screen : bool) (limit : Z) (date_limit : option Z)
    (stream repeat gzip_compress : bool) (twitter_files : string) : M unit :=
  if to_screen then
    modify (with_handler
              (Some (TweetHandlerI.__init__ TweetViewer limit date_limit
                       "" "" false (mkFileName "" 0 "") true false)))
  else
    TweetWriter.__init__ limit date_limit stream "tweets" twitter_files
      repeat gzip_compress.

Definition no_keyword : string :=
  "Please supply at least one keyword to search for.".

(** [tweets]: [inbound] is what the streaming side will send, [answers]
    what the search side will answer; [fuel] bounds the rounds of the
    search dispatch loop. *)
Definition tweets (keywords follow : string) (to_screen stream : bool)
    (limit : Z) (date_limit : option Z) (lang : string)
    (repeat gzip_compress : bool) (twitter_files : string) (fuel : nat)
    (inbound : list Streamer.Inbound) (answers : list Query.Response)
    (self : t) : status * t * list Event :=
  if stream then
    match new_handler to_screen limit date_limit stream repeat gzip_compress
            twitter_files (streamer self) with
    | (Return _, s1, ev0) =>
        let r :=
          if String.eqb keywords "" && String.eqb follow ""
          then Streamer.sample inbound s1
          else Streamer.filter keywords follow lang inbound s1 in
        (status_of r, mk (world_of r) (query self), ev0 ++ events_of r)
    | (Raise e, s1, ev0) => (Failed e, mk s1 (query self), ev0)
    end
  else
    match new_handler to_screen limit date_limit stream repeat gzip_compress
            twitter_files (query self) with
    | (Return _, q1, ev0) =>
        if String.eqb keywords "" then
          (Failed (ValueError no_keyword), mk (streamer self) q1, ev0)
        else
          let r := Query._search_tweets fuel limit answers q1 in
          (status_of r, mk (streamer self) (world_of r), ev0 ++ events_of r)
    | (Raise e, q1, ev0) => (Failed e, mk (streamer self) q1, ev0)
    end.

End Twitter.

(** * Properties *)

(** ** Vocabulary of the statements *)

(** A writer that can take a record: it is about to open its target, or
    the target is open. *)
Definition writable (h : Handler) : Prop :=
  startingup h = true \/ exists f, output h = Some f /\ f_closed f = false.

(** The record's date is on the far side of the boundary: after it when
    streaming, before it when searching. *)
Definition beyond (h : Handler) (d tweet_date : Z) : Prop :=
  (stream h = true /\ d < tweet_date) \/ (stream h = false /\ tweet_date < d).

(** What [handle] does before it looks at the date. *)
Definition target (h : Handler) : FileName :=
  if startingup h then fname h
  else match output h with Some f => f_name f | None => fname h end.

Definition opening (h : Handler) : list Event :=
  if startingup h
  then [Opened (fname h) (gzip_compress h); Printed (MsgWritingTo (fname h))]
  else [].

Definition opened (h : Handler) : Handler :=
  if startingup h then set_output (Some (mkFile (fname h) false)) h else h.

Definition diagnostic (h : Handler) (d tweet_date : Z) : Event :=
  Printed (MsgDateLimit d (if stream h then "earlier" else "later") tweet_date).

(** The calls a session makes on its handler. *)
Inductive Call : Type :=
| CallHandle (data : Tweet)
| CallCounterIncr
| CallDoContinue
| CallOnFinish.

Definition call (c : Call) : M unit :=
  match c with
  | CallHandle data => handler_handle data
  | CallCounterIncr => handler_counter_incr
  | CallDoContinue => handler_do_continue ;; ret tt
  | CallOnFinish => handler_on_finish
  end.

Fixpoint session (cs : list Call) : M unit :=
  match cs with
  | [] => ret tt
  | c :: cs' => call c ;; session cs'
  end.

Definition stopped_writer (w : World) : Prop :=
  exists h, handler w = Some h /\ cls h = TweetWriter /\ do_stop h = true.


(** Counting events of a kind. *)
Fixpoint count (p : Event -> bool) (ev : list Event) : Z :=
  match ev with
  | [] => 0
  | e :: ev' => (if p e then 1 else 0) + count p ev'
  end.

Definition is_closed (e : Event) : bool :=
  match e with Closed _ => true | _ => false end.

Definition is_wrote (e : Event) : bool :=
  match e with Wrote _ _ _ => true | _ => false end.

Definition is_written (e : Event) : bool :=
  match e with Printed (MsgWritten _) => true | _ => false end.

Definition is_text (e : Event) : bool :=
  match e with Printed (MsgText _) => true | _ => false end.

Definition is_yielded (e : Event) : bool :=
  match e with Yielded _ => true | _ => false end.

Definition has_text (data : Tweet) : Prop := t_text data <> None.

(** A writer in repeat mode with no date boundary that has not been
    stopped. *)
Definition repeating (h : Handler) : Prop :=
  cls h = TweetWriter /\ repeat h = true /\ date_limit h = None /\
  do_stop h = false /\ writable h.

(** The records among what happens on a connection. *)
Fixpoint records (script : list Streamer.Inbound) : list Tweet :=
  match script with
  | [] => []
  | Streamer.Message data :: script' => data :: records script'
  | _ :: script' => records script'
  end.

(** Nothing but records with a text, and time passing between them. *)
Definition steady (script : list Streamer.Inbound) : Prop :=
  Forall (fun i => match i with
                   | Streamer.Message data => has_text data
                   | Streamer.Tick _ => True
                   | Streamer.Broken => False
                   end) script.

(** The file name [timestamped_file] makes at the clock reading [now]. *)
Definition name_at (h : Handler) (now : nat) : FileName :=
  mkFileName (TweetWriter.path_join (subdir h) (fprefix h)) now
    (if gzip_compress h then ".gz" else "").

(** Where each record goes, in the words of the claim: the handler moves
    on to the file named by the present timestamp after every [limit]
    records.  [cur] is the current file, [c] the number of records it
    holds, [now] the clock reading. *)
Fixpoint rotating (limit : Z) (name : nat -> FileName) (c : Z)
    (cur : FileName) (now : nat) (script : list Streamer.Inbound)
    : list (FileName * Tweet) :=
  match script with
  | [] => []
  | Streamer.Message data :: script' =>
      (cur, data)
      :: (if c + 1 =? limit
          then rotating limit name 0 (name now) now script'
          else rotating limit name (c + 1) cur now script')
  | Streamer.Tick seconds :: script' =>
      rotating limit name c cur (now + seconds) script'
  | Streamer.Broken :: script' => rotating limit name c cur now script'
  end.

(** What was written to which file, read off the events. *)
Fixpoint written (ev : list Event) : list (FileName * Tweet) :=
  match ev with
  | [] => []
  | Wrote f _ data :: ev' => (f, data) :: written ev'
  | _ :: ev' => written ev'
  end.

(** The file that is open after the events [ev], when [cur] was open
    before them. *)
Fixpoint open_after (cur : option FileName) (ev : list Event)
    : option FileName :=
  match ev with
  | [] => cur
  | Opened f _ :: ev' => open_after (Some f) ev'
  | Closed _ :: ev' => open_after None ev'
  | _ :: ev' => open_after cur ev'
  end.

(** One file at a time: a file is opened only when none is open, and it
    is written to and closed only while it is the open one. *)
Fixpoint one_at_a_time (cur : option FileName) (ev : list Event) : Prop :=
  match ev with
  | [] => True
  | Opened f _ :: ev' => cur = None /\ one_at_a_time (Some f) ev'
  | Wrote f _ _ :: ev' => cur = Some f /\ one_at_a_time cur ev'
  | Closed f :: ev' => cur = Some f /\ one_at_a_time None ev'
  | _ :: ev' => one_at_a_time cur ev'
  end.

(** The file a writer has open. *)
Definition open_file (h : Handler) : option FileName :=
  if startingup h then None else Some (target h).

(** The id of the last record of a page, and the smallest id in it. *)
Definition last_id (statuses : list Tweet) : Z :=
  t_id (List.last statuses (mkTweet 0 None None)).

Fixpoint min_id (statuses : list Tweet) : option Z :=
  match statuses with
  | [] => None
  | t :: statuses' =>
      match min_id statuses' with
      | None => Some (t_id t)
      | Some m => Some (Z.min (t_id t) m)
      end
  end.

(** Ids in strictly descending order, as the remote side lists recent
    Tweets. *)
Fixpoint descending (ids : list Z) : Prop :=
  match ids with
  | a :: ((b :: _) as ids') => b < a /\ descending ids'
  | _ => True
  end.

(** A computation that leaves the cursor stored on the handler alone,
    whether it returns or raises. *)
Definition keeps_max_id {A : Type} (m : M A) : Prop :=
  forall (w : World) (h : Handler),
    handler w = Some h ->
    exists h', handler (world (m w)) = Some h' /\ max_id h' = max_id h.

(** A loop body that uses up part of the script whenever the loop goes on
    after it. *)
Definition progressing
    (body : list Streamer.Inbound -> World -> Run Streamer.Inbound) : Prop :=
  forall script w,
    status_of (body script w) <> OutOfFuel /\
    (status_of (body script w) = Finished \/
     status_of (body script w) = Failed ChunkedEncodingError ->
     (List.length (rest_of (body script w)) < List.length script)%nat).

(** ** Concrete sessions *)

Definition ex_tweet (i : Z) : Tweet :=
  mkTweet i (Some "nltk") (Some (1000 + i)).

Definition ex_fname : FileName := mkFileName "twitter-files/tweets" 0 "".

Definition ex_writer (limit : Z) (date_limit : option Z)
    (stream repeat : bool) : Handler :=
  TweetHandlerI.__init__ TweetWriter limit date_limit "tweets"
    "twitter-files" false ex_fname stream repeat.

Definition ex_viewer (limit : Z) : Handler :=
  TweetHandlerI.__init__ TweetViewer limit None "" "" false
    (mkFileName "" 0 "") true false.

(** A new engine with [h] registered on it. *)
Definition ex_world (h : Handler) : World :=
  with_handler (Some h) (Streamer.__init__ 0 ["twitter-files"]).

(** A new engine with no handler registered. *)
Definition ex_bare : World := Query.__init__ 0 [].

(** A caller of [search_tweets] that only iterates over the records. *)
Definition just_iterate (t : Tweet) : M unit := ret tt.

Definition is_request (e : Event) : bool :=
  match e with SearchRequest _ _ => true | _ => false end.


(** ** Vocabulary of the further statements *)

Definition is_stream_request (e : Event) : bool :=
  match e with StreamRequest _ => true | _ => false end.

Definition is_stream_error (e : Event) : bool :=
  match e with Printed MsgStreamError => true | _ => false end.

Definition is_opened (e : Event) : bool :=
  match e with Opened _ _ => true | _ => false end.

(** How often the connection breaks in a script. *)
Fixpoint breaks (script : list Streamer.Inbound) : Z :=
  match script with
  | [] => 0
  | Streamer.Broken :: script' => 1 + breaks script'
  | Streamer.Message _ :: script' => breaks script'
  | Streamer.Tick _ :: script' => breaks script'
  end.

(** The events a handler produces. *)
Definition handler_event (e : Event) : Prop :=
  match e with
  | Printed (MsgText _) | Printed (MsgWritten _) | Printed (MsgWritingTo _)
  | Printed (MsgDateLimit _ _ _) | Mkdir _ | Opened _ _ | Wrote _ _ _
  | Closed _ => True
  | _ => False
  end.

(** All events of a computation are of a kind. *)
Definition emits {A : Type} (P : Event -> Prop) (m : M A) : Prop :=
  forall w : World, Forall P (events (m w)).

(** A request that asks for between 1 and 100 records. *)
Definition request_in_bounds (e : Event) : Prop :=
  match e with
  | SearchRequest count _ => 1 <= count <= 100
  | _ => True
  end.

Definition not_yielded (e : Event) : Prop := is_yielded e = false.

(** The search side never answers with more records than the request
    asked for.  [seen] is the number of records answered so far. *)
Fixpoint honours (limit seen : Z) (script : list Query.Response) : Prop :=
  match script with
  | [] => True
  | Query.Statuses statuses :: script' =>
      Query.len statuses <= Z.min 100 (limit - seen) /\
      honours limit (seen + Query.len statuses) script'
  | Query.RaisesTwythonRateLimitError :: script' => honours limit seen script'
  | Query.RaisesTwythonError :: script' => honours limit seen script'
  end.

(** The lookups among the events of [expand_tweetids], and the Tweets. *)
Fixpoint lookups (ev : list Ids.IdEvent) : list (list string) :=
  match ev with
  | [] => []
  | Ids.LookupStatus chunk :: ev' => chunk :: lookups ev'
  | _ :: ev' => lookups ev'
  end.

Fixpoint fetched (ev : list Ids.IdEvent) : list Tweet :=
  match ev with
  | [] => []
  | Ids.Fetched t :: ev' => t :: fetched ev'
  | _ :: ev' => fetched ev'
  end.

Fixpoint found (answers : list Ids.Answer) : list Tweet :=
  match answers with
  | Ids.Found tweets :: answers' => tweets ++ found answers'
  | _ => []
  end.

(** The first [m] slices of width [c] of a list. *)
Definition slices {A : Type} (c m : nat) (l : list A) : list (list A) :=
  map (fun i => firstn c (skipn i l)) (map (fun k => (c * k)%nat) (seq 0 m)).

(** The exceptions a handler raises in this model, where opening a file,
    making a directory and reading a date always succeed: a key the record
    lacks, an attribute the handler lacks, a write to a closed file. *)
Definition handler_exn (e : exn) : Prop :=
  match e with
  | KeyError _ | AttributeError _ => True
  | ValueError m => m = "I/O operation on closed file"
  | _ => False
  end.

(** The exceptions [on_success] raises: those of the handler and its own,
    when no handler is registered. *)
Definition engine_exn (e : exn) : Prop :=
  handler_exn e \/ e = ValueError "No data handler has been registered.".

(** All exceptions of a computation are of a kind. *)
Definition raises {A : Type} (P : exn -> Prop) (m : M A) : Prop :=
  forall (w : World) (e : exn), result (m w) = Raise e -> P e.

(** A computation that leaves the two flags of the engine alone. *)
Definition keeps_flags {A : Type} (m : M A) : Prop :=
  forall w : World,
    do_continue (world (m w)) = do_continue w /\
    connected (world (m w)) = connected w.

(** What the streaming engine itself adds to the events of the handler. *)
Definition engine_event (e : Event) : Prop :=
  handler_event e \/ e = Disconnected.

(** A computation that leaves one observation of the world as it is. *)
Definition keeps_field {A B : Type} (f : World -> B) (m : M A) : Prop :=
  forall w : World, f (world (m w)) = f w.

(** ** Proof support *)

Ltac run :=
  repeat progress (
  cbv beta iota zeta delta
   [TweetWriter.handle TweetWriter.write TweetWriter.date_limit_reached
    TweetWriter.on_finish TweetWriter.do_continue TweetWriter._restart_file
    TweetWriter.timestamped_file TweetHandlerI.do_continue
    TweetViewer.handle TweetViewer.on_finish
    handler_handle handler_do_continue handler_on_finish handler_counter_incr
    update_handler self_handler bind ret raise emit get modify
    result world events] in *; cbn in *).

Ltac open_world w h H :=
  destruct w as [wh wflag wconn wclock wdirs]; cbn in H; subst;
  destruct h as [hcls hlimit hcounter hstop hdate hstart hprefix hsubdir hgz
                 hfname hstream hrepeat hmax hout]; cbn in *; subst.

Ltac decide_dates :=
  repeat match goal with
  | H : ?a < ?b |- context [?b >? ?a] =>
      replace (b >? a) with true by (symmetry; apply Z.gtb_lt; lia)
  | H : ?a < ?b |- context [?a <? ?b] =>
      replace (a <? b) with true by (symmetry; apply Z.ltb_lt; lia)
  | H : ~ (?a < ?b) |- context [?b >? ?a] =>
      replace (b >? a) with false
        by (symmetry; rewrite Z.gtb_ltb; apply Z.ltb_ge; lia)
  | H : ~ (?a < ?b) |- context [?a <? ?b] =>
      replace (a <? b) with false by (symmetry; apply Z.ltb_ge; lia)
  end.

Lemma handle_beyond (w : World) (h : Handler) (data : Tweet) (d tweet_date : Z) :
  handler w = Some h -> date_limit h = Some d ->
  t_created_at data = Some tweet_date -> writable h -> beyond h d tweet_date ->
  TweetWriter.handle data w =
    (Return tt, with_handler (Some (set_do_stop true (opened h))) w,
     opening h ++ [Wrote (target h) (gzip_compress h) data;
                   diagnostic h d tweet_date]).
Proof.
  intros Hh Hd Hc Hw Hb. open_world w h Hh.
  unfold beyond, writable, opening, target, opened, diagnostic in *; cbn in *.
  run. rewrite Hc.
  destruct Hw as [->|[[nm cl] [Hf Hcl]]]; cbn in *; subst;
    [|destruct hstart]; cbn;
    destruct Hb as [[-> Hlt]|[-> Hlt]]; cbn; decide_dates; cbn;
    rewrite ?andb_false_r; cbn; reflexivity.
Qed.

Lemma handle_within (w : World) (h : Handler) (data : Tweet) (d tweet_date : Z) :
  handler w = Some h -> date_limit h = Some d ->
  t_created_at data = Some tweet_date -> writable h -> ~ beyond h d tweet_date ->
  TweetWriter.handle data w =
    (Return tt, with_handler (Some (set_startingup false (opened h))) w,
     opening h ++ [Wrote (target h) (gzip_compress h) data]).
Proof.
  intros Hh Hd Hc Hw Hb. open_world w h Hh.
  unfold beyond, writable, opening, target, opened, diagnostic in *; cbn in *.
  run. rewrite Hc.
  assert (Hcmp : (if hstream then ~ d < tweet_date else ~ tweet_date < d)).
  { destruct hstream; intro; apply Hb; auto. }
  destruct Hw as [->|[[nm cl] [Hf Hcl]]]; cbn in *; subst;
    [|destruct hstart]; cbn;
    destruct hstream; cbn; decide_dates; cbn;
    rewrite ?andb_false_r; cbn; reflexivity.
Qed.

Lemma do_continue_stopped (w : World) (h : Handler) :
  handler w = Some h -> do_stop h = true ->
  handler_do_continue w = (Return false, w, []) /\
  TweetWriter.do_continue w = (Return false, w, []).
Proof.
  intros Hh Hs. open_world w h Hh. run.
  destruct hcls, hrepeat; cbn; rewrite ?andb_false_r; auto.
Qed.

Lemma call_keeps_stop (c : Call) (w : World) :
  stopped_writer w -> stopped_writer (world (call c w)).
Proof.
  intros [h [Hh [Hc Hs]]]. open_world w h Hh.
  destruct c as [data| | |]; unfold call, stopped_writer.
  - run.
    destruct hstart, hout as [[nm [|]]|], hdate as [d|],
      (t_created_at data) as [td|], hstream; cbn;
      try (destruct (td >? d)); try (destruct (td <? d)); cbn;
      eexists; (split; [reflexivity|]); cbn; auto.
  - run. eexists; (split; [reflexivity|]); cbn; auto.
  - run. destruct hrepeat; cbn; rewrite ?andb_false_r; cbn;
    eexists; (split; [reflexivity|]); cbn; auto.
  - run. destruct hout as [[nm [|]]|]; cbn;
    eexists; (split; [reflexivity|]); cbn; auto.
Qed.

Lemma session_keeps_stop (cs : list Call) (w : World) :
  stopped_writer w -> stopped_writer (world (session cs w)).
Proof.
  revert w. induction cs as [|c cs IH]; intros w Hw; cbn.
  - exact Hw.
  - unfold bind. pose proof (call_keeps_stop c w Hw) as H1.
    destruct (call c w) as [[[u|e] w1] ev1]; cbn in *.
    + specialize (IH w1 H1).
      destruct (session cs w1) as [[r w2] ev2]; cbn in *. exact IH.
    + exact H1.
Qed.

Lemma bind_eq {A B : Type} (m : M A) (f : A -> M B) (w w1 : World) (a : A)
    (ev : list Event) :
  m w = (Return a, w1, ev) ->
  bind m f w = (result (f a w1), world (f a w1), ev ++ events (f a w1)).
Proof.
  intros E. unfold bind. rewrite E. destruct (f a w1) as [[r w2] ev2].
  reflexivity.
Qed.

Lemma self_bind {A : Type} (k : Handler -> M A) (w : World) (h : Handler) :
  handler w = Some h -> bind self_handler k w = k h w.
Proof.
  intros Hh. unfold bind, self_handler. rewrite Hh.
  destruct (k h w) as [[r w2] ev2]. reflexivity.
Qed.

Lemma handle_of_writer (data : Tweet) (w : World) (h : Handler) :
  handler w = Some h -> cls h = TweetWriter ->
  handler_handle data w = TweetWriter.handle data w.
Proof.
  intros Hh Hc. unfold handler_handle. rewrite (self_bind _ w h Hh), Hc.
  reflexivity.
Qed.

Lemma counter_incr_eq (w : World) (h : Handler) :
  handler w = Some h ->
  handler_counter_incr w =
    (Return tt, with_handler (Some (set_counter (counter h + 1) h)) w, []).
Proof.
  intros Hh. unfold handler_counter_incr, update_handler.
  rewrite (self_bind _ w h Hh). reflexivity.
Qed.

Lemma on_success_beyond (w : World) (h : Handler) (data : Tweet) (s : string)
    (d tweet_date : Z) :
  do_continue w = true -> handler w = Some h -> cls h = TweetWriter ->
  t_text data = Some s ->
  date_limit h = Some d -> t_created_at data = Some tweet_date ->
  writable h -> beyond h d tweet_date ->
  Streamer.on_success data w =
    (Return tt,
     with_do_continue false
       (with_handler
          (Some (set_do_stop true (opened (set_counter (counter h + 1) h)))) w),
     opening h ++ [Wrote (target h) (gzip_compress h) data;
                   diagnostic h d tweet_date]).
Proof.
  intros Hflag Hh Hcls Htext Hd Hc Hw Hb.
  set (h1 := set_counter (counter h + 1) h).
  set (w1 := with_handler (Some h1) w).
  assert (E1 : handler_counter_incr w = (Return tt, w1, [])).
  { apply counter_incr_eq, Hh. }
  assert (E2 : handler_handle data w1 =
               (Return tt, with_handler (Some (set_do_stop true (opened h1))) w1,
                opening h1 ++ [Wrote (target h1) (gzip_compress h1) data;
                               diagnostic h1 d tweet_date])).
  { rewrite <- (handle_beyond w1 h1 data d tweet_date); auto.
    apply (handle_of_writer data w1 h1); auto. }
  set (w2 := with_handler (Some (set_do_stop true (opened h1))) w1) in *.
  assert (E3 : handler_do_continue w2 = (Return false, w2, [])).
  { apply (do_continue_stopped w2 (set_do_stop true (opened h1))); reflexivity. }
  unfold Streamer.on_success.
  rewrite (bind_eq _ _ w w w []) by reflexivity.
  cbv beta. rewrite Hflag, Hh, Htext.
  rewrite (bind_eq _ _ _ _ _ _ E1).
  rewrite (bind_eq _ _ _ _ _ _ E2).
  rewrite (bind_eq _ _ _ _ _ _ E3).
  unfold modify, result, world, events. cbn.
  rewrite app_nil_r. reflexivity.
Qed.

(** ** The streaming loops are total

    [sample] and [filter] give their loop one more unit of fuel than the
    script has entries, and every turn of the loop that goes on to another
    takes at least one entry: the fuel never runs out. *)

Lemma receive_progress (script : list Streamer.Inbound) :
  forall w : World,
  status_of (Streamer.receive script w) <> OutOfFuel /\
  (status_of (Streamer.receive script w) <> Waiting ->
   (List.length (rest_of (Streamer.receive script w))
    < List.length script)%nat).
Proof.
  induction script as [|[data|seconds|] script IH]; intros w;
    cbn [Streamer.receive status_of rest_of List.length].
  - split; [discriminate|congruence].
  - destruct (connected w); [|cbn [status_of rest_of]; split;
                                [discriminate|lia]].
    destruct (Streamer.on_success data w) as [[[u|e] w1] ev1].
    + unfold prepend. cbn [status_of rest_of].
      destruct (IH w1) as [H1 H2].
      split; [exact H1|]. intros H. specialize (H2 H). lia.
    + cbn [status_of rest_of]. split; [discriminate|lia].
  - destruct (IH (with_clock (clock w + seconds) w)) as [H1 H2].
    split; [exact H1|]. intros H. specialize (H2 H). lia.
  - split; [discriminate|lia].
Qed.

Lemma while_has_fuel
    (body : list Streamer.Inbound -> World -> Run Streamer.Inbound) :
  progressing body ->
  forall (fuel : nat) (script : list Streamer.Inbound) (w : World),
  (List.length script < fuel)%nat ->
  status_of (Streamer.while_do_continue fuel body script w) <> OutOfFuel.
Proof.
  intros Hbody. induction fuel as [|fuel IH]; intros script w Hlen; [lia|].
  cbn [Streamer.while_do_continue].
  destruct (do_continue w); [|discriminate].
  destruct (Hbody script w) as [H1 H2]. cbv zeta.
  destruct (status_of (body script w)) as [|[]| |] eqn:E;
    try (rewrite E; discriminate); try congruence.
  - unfold prepend. cbn [status_of]. apply IH.
    specialize (H2 (or_introl eq_refl)). lia.
  - unfold prepend. cbn [status_of]. apply IH.
    specialize (H2 (or_intror eq_refl)). lia.
Qed.

Lemma statuses_progressing (e : Endpoint) : progressing (Streamer.statuses e).
Proof.
  intros script w. unfold Streamer.statuses, prepend.
  cbn [status_of rest_of].
  destruct (receive_progress script (with_connected true w)) as [H1 H2].
  split; [exact H1|]. intros [H|H]; apply H2; rewrite H; discriminate.
Qed.

Lemma sample_total (script : list Streamer.Inbound) (w : World) :
  status_of (Streamer.sample script w) <> OutOfFuel.
Proof.
  unfold Streamer.sample. apply while_has_fuel; [|lia].
  apply statuses_progressing.
Qed.

Lemma filter_total (track follow lang : string)
    (script : list Streamer.Inbound) (w : World) :
  status_of (Streamer.filter track follow lang script w) <> OutOfFuel.
Proof.
  unfold Streamer.filter. apply while_has_fuel; [|lia].
  intros script' w'. unfold Streamer.filter_body.
  destruct (String.eqb track "" && String.eqb follow "").
  - cbn [status_of rest_of]. split; [discriminate|].
    intros [H|H]; discriminate.
  - apply statuses_progressing.
Qed.

(** ** The date boundary of the file handler *)

Lemma yield_each_beyond (w : World) (h : Handler) (data : Tweet)
    (more : list Tweet) (d tweet_date : Z) :
  handler w = Some h -> cls h = TweetWriter ->
  date_limit h = Some d -> t_created_at data = Some tweet_date ->
  writable h -> beyond h d tweet_date ->
  Query.yield_each handler_handle (data :: more) w =
    (Return true,
     with_handler
       (Some (set_counter (counter h + 1) (set_do_stop true (opened h)))) w,
     Yielded data :: opening h ++ [Wrote (target h) (gzip_compress h) data;
                                   diagnostic h d tweet_date]).
Proof.
  intros Hh Hcls Hd Hc Hw Hb.
  pose proof (handle_beyond w h data d tweet_date Hh Hd Hc Hw Hb) as E1.
  rewrite <- (handle_of_writer data w h Hh Hcls) in E1.
  set (h1 := set_do_stop true (opened h)) in *.
  set (w1 := with_handler (Some h1) w) in *.
  pose proof (counter_incr_eq w1 h1 eq_refl) as E2.
  set (h2 := set_counter (counter h1 + 1) h1) in *.
  set (w2 := with_handler (Some h2) w1) in *.
  assert (E3 : handler_do_continue w2 = (Return false, w2, [])).
  { apply (do_continue_stopped w2 h2); reflexivity. }
  cbn [Query.yield_each].
  rewrite (bind_eq _ _ w w tt [Yielded data]) by reflexivity.
  rewrite (bind_eq _ _ _ _ _ _ E1).
  rewrite (bind_eq _ _ _ _ _ _ E2).
  rewrite (bind_eq _ _ _ _ _ _ E3).
  unfold ret, result, world, events. cbn.
  rewrite app_nil_r.
  unfold w2, h2, w1, h1, opened.
  destruct w; destruct h as [c l n st dl [|] fp sd gz fnm str rp mi out];
    reflexivity.
Qed.

Lemma beyond_dec (h : Handler) (d tweet_date : Z) :
  {beyond h d tweet_date} + {~ beyond h d tweet_date}.
Proof.
  unfold beyond.
  destruct (stream h); [destruct (Z_lt_dec d tweet_date)
                       |destruct (Z_lt_dec tweet_date d)];
    try (left; auto; fail);
    right; intros [[? ?]|[? ?]]; (discriminate || contradiction).
Qed.

Lemma opened_counter (h : Handler) : counter (opened h) = counter h.
Proof. unfold opened. destruct (startingup h) eqn:E; cbn; auto. Qed.

Lemma opened_startingup (h : Handler) : startingup (opened h) = startingup h.
Proof. unfold opened. destruct (startingup h) eqn:E; cbn; auto. Qed.

Lemma opened_do_stop (h : Handler) : do_stop (opened h) = do_stop h.
Proof. unfold opened. destruct (startingup h) eqn:E; cbn; auto. Qed.

(** C4.  A [TweetWriter] with a date boundary [d] handles a record dated
    [tweet_date].  The record is written to the target in every case.  If
    the date is beyond the boundary (after it in streaming mode, before it
    in search mode), [do_stop] is set, the diagnostic is the last thing
    printed, and the method returns before its closing bookkeeping:
    [startingup] is left as it was.  From then on the continuation
    predicate is false, so neither engine hands the handler another
    record: the streaming engine lowers its flag, and the search generator
    returns right after this record, whatever else the page holds.  On the
    other side of the boundary (or on it) the record is processed
    normally: no diagnostic, [do_stop] untouched, [startingup] cleared.
    The counter is never touched. *)
Theorem date_boundary_stops_writer (w : World) (h : Handler) (data : Tweet)
    (d tweet_date : Z)
    (Hh : handler w = Some h) (Hcls : cls h = TweetWriter)
    (Hd : date_limit h = Some d) (Hc : t_created_at data = Some tweet_date)
    (Hw : writable h) :
  let r := TweetWriter.handle data w in
  result r = Return tt /\
  exists h', handler (world r) = Some h' /\ counter h' = counter h /\
  (beyond h d tweet_date ->
     do_stop h' = true /\
     startingup h' = startingup h /\
     events r = opening h ++ [Wrote (target h) (gzip_compress h) data;
                              diagnostic h d tweet_date] /\
     result (handler_do_continue (world r)) = Return false /\
     (forall s, t_text data = Some s -> do_continue w = true ->
        do_continue (world (Streamer.on_success data w)) = false) /\
     (forall more,
        let g := Query.yield_each handler_handle (data :: more) w in
        result g = Return true /\ events g = Yielded data :: events r)) /\
  (~ beyond h d tweet_date ->
     do_stop h' = do_stop h /\
     startingup h' = false /\
     events r = opening h ++ [Wrote (target h) (gzip_compress h) data]).
Proof.
  intros r. subst r.
  destruct (beyond_dec h d tweet_date) as [Hb|Hn].
  - rewrite (handle_beyond w h data d tweet_date Hh Hd Hc Hw Hb).
    split; [reflexivity|].
    exists (set_do_stop true (opened h)).
    split; [reflexivity|].
    split; [apply opened_counter|].
    split; [|intros Hn'; contradiction].
    intros _.
    split; [reflexivity|].
    split; [apply opened_startingup|].
    split; [reflexivity|].
    split.
    { cbn [world fst snd].
      destruct (do_continue_stopped
                  (with_handler (Some (set_do_stop true (opened h))) w)
                  (set_do_stop true (opened h)) eq_refl eq_refl) as [E _].
      rewrite E. reflexivity. }
    split.
    { intros s Ht Hf.
      rewrite (on_success_beyond w h data s d tweet_date); auto. }
    intros more. cbv zeta.
    rewrite (yield_each_beyond w h data more d tweet_date); auto.
  - rewrite (handle_within w h data d tweet_date Hh Hd Hc Hw Hn).
    split; [reflexivity|].
    exists (set_startingup false (opened h)).
    split; [reflexivity|].
    split; [apply opened_counter|].
    split; [intros Hb'; contradiction|].
    intros _.
    split; [apply opened_do_stop|].
    split; reflexivity.
Qed.

Lemma date_boundary_stops_writer_witness :
  beyond (ex_writer 10 (Some 1100) true false) 1100 1105 /\
  result (TweetWriter.handle (ex_tweet 105)
            (ex_world (ex_writer 10 (Some 1100) true false))) = Return tt.
Proof.
  split.
  - left. split; reflexivity.
  - exact (proj1 (date_boundary_stops_writer
                    (ex_world (ex_writer 10 (Some 1100) true false))
                    (ex_writer 10 (Some 1100) true false) (ex_tweet 105)
                    1100 1105 eq_refl eq_refl eq_refl eq_refl
                    (or_introl eq_refl))).
Defined.

(** ** The stop flag *)

(** C6.  Once [do_stop] is set on a [TweetWriter] it stays set through any
    further calls the session makes on the handler ([handle], the engine's
    counter increment, [do_continue], [on_finish]), whether they return or
    raise; and at every such point [do_continue()] answers [False] at once,
    with repeat mode on or off: it changes nothing and does nothing, so no
    rotation takes place (the test of [do_stop] comes before the test of
    the counter). *)
Theorem do_stop_is_sticky (w : World) (h : Handler) (cs : list Call)
    (Hh : handler w = Some h) (Hcls : cls h = TweetWriter)
    (Hs : do_stop h = true) :
  let w' := world (session cs w) in
  (exists h', handler w' = Some h' /\ cls h' = TweetWriter /\
              do_stop h' = true) /\
  handler_do_continue w' = (Return false, w', []) /\
  TweetWriter.do_continue w' = (Return false, w', []).
Proof.
  intros w'.
  assert (Hw' : stopped_writer w').
  { apply session_keeps_stop. exists h. auto. }
  split; [exact Hw'|].
  destruct Hw' as [h' [Hh' [_ Hs']]].
  apply (do_continue_stopped w' h' Hh' Hs').
Qed.

Lemma do_stop_is_sticky_witness :
  let w := ex_world (set_do_stop true
                       (set_counter 3 (ex_writer 3 (Some 1100) true true))) in
  let w' := world (session [CallHandle (ex_tweet 1); CallCounterIncr;
                            CallDoContinue; CallHandle (ex_tweet 2)] w) in
  handler_do_continue w' = (Return false, w', []).
Proof.
  intros w w'.
  exact (proj1 (proj2 (do_stop_is_sticky w
                         (set_do_stop true
                            (set_counter 3 (ex_writer 3 (Some 1100) true true)))
                         [CallHandle (ex_tweet 1); CallCounterIncr;
                          CallDoContinue; CallHandle (ex_tweet 2)]
                         eq_refl eq_refl eq_refl))).
Defined.

(** ** File rotation in repeat mode *)

Lemma count_app (p : Event -> bool) (a b : list Event) :
  count p (a ++ b) = count p a + count p b.
Proof. induction a as [|e a IH]; cbn; [reflexivity|rewrite IH; lia]. Qed.

Lemma len_cons (t : Tweet) (l : list Tweet) :
  Query.len (t :: l) = 1 + Query.len l.
Proof. unfold Query.len. cbn [List.length]. lia. Qed.

Lemma len_nonneg (l : list Tweet) : 0 <= Query.len l.
Proof. unfold Query.len. lia. Qed.

Lemma written_app (a b : list Event) :
  written (a ++ b) = written a ++ written b.
Proof.
  induction a as [|e a IH]; [reflexivity|].
  destruct e; cbn [app written]; rewrite ?IH; reflexivity.
Qed.

Lemma open_after_app (cur : option FileName) (a b : list Event) :
  open_after cur (a ++ b) = open_after (open_after cur a) b.
Proof.
  revert cur. induction a as [|e a IH]; intros cur; [reflexivity|].
  destruct e; cbn [app open_after]; apply IH.
Qed.

Lemma one_at_a_time_app (cur : option FileName) (a b : list Event) :
  one_at_a_time cur a -> one_at_a_time (open_after cur a) b ->
  one_at_a_time cur (a ++ b).
Proof.
  revert cur. induction a as [|e a IH]; intros cur Ha Hb; [exact Hb|].
  destruct e; cbn [app one_at_a_time open_after] in *;
    try (apply IH; assumption);
    (destruct Ha as [Hc Ha]; split; [exact Hc|apply IH; assumption]).
Qed.

(** One record through [on_success] on a repeating writer: it is written
    to the current file, which is opened first if need be, and the file is
    rotated exactly when the counter reaches the limit. *)
Lemma on_success_repeating (w : World) (h : Handler) (data : Tweet) :
  do_continue w = true -> handler w = Some h -> repeating h -> has_text data ->
  exists w' h' ev,
    Streamer.on_success data w = (Return tt, w', ev) /\
    do_continue w' = true /\ connected w' = connected w /\
    clock w' = clock w /\
    handler w' = Some h' /\ repeating h' /\ limit h' = limit h /\
    name_at h' = name_at h /\
    count is_wrote ev = 1 /\
    written ev = [(target h, data)] /\
    one_at_a_time (open_file h) ev /\
    open_after (open_file h) ev = open_file h' /\
    ((counter h + 1 = limit h /\ counter h' = 0 /\ count is_closed ev = 1 /\
      startingup h' = true /\ target h' = name_at h (clock w)) \/
     (counter h + 1 <> limit h /\ counter h' = counter h + 1 /\
      count is_closed ev = 0 /\ target h' = target h)).
Proof.
  intros Hflag Hh [Hcls [Hrep [Hdate [Hstop Hw]]]] Htext.
  unfold has_text in Htext.
  destruct (t_text data) as [s|] eqn:Ht; [|congruence].
  unfold Streamer.on_success, writable, repeating, name_at, open_file,
    target in *.
  open_world w h Hh. run. rewrite Ht. cbn.
  destruct hstart; cbn.
  - destruct (hcounter + 1 =? hlimit) eqn:E; cbn.
    + apply Z.eqb_eq in E.
      destruct (String.eqb hsubdir ""); cbn;
        [|destruct (existsb (String.eqb hsubdir) wdirs); cbn];
        eexists; eexists; eexists;
        (split; [reflexivity|]); cbn;
        repeat (split; auto); try (left; repeat split; auto).
    + apply Z.eqb_neq in E.
      eexists; eexists; eexists;
        (split; [reflexivity|]); cbn;
        repeat (split; auto); try (right; eexists; split; reflexivity);
        try (right; repeat split; auto).
  - destruct Hw as [Hw|[[nm cl] [Hf Hcl]]]; [discriminate|].
    cbn in *. inversion Hf; subst. cbn.
    destruct (hcounter + 1 =? hlimit) eqn:E; cbn.
    + apply Z.eqb_eq in E.
      destruct (String.eqb hsubdir ""); cbn;
        [|destruct (existsb (String.eqb hsubdir) wdirs); cbn];
        eexists; eexists; eexists;
        (split; [reflexivity|]); cbn;
        repeat (split; auto); try (left; repeat split; auto).
    + apply Z.eqb_neq in E.
      eexists; eexists; eexists;
        (split; [reflexivity|]); cbn;
        repeat (split; auto); try (right; eexists; split; reflexivity);
        try (right; repeat split; auto).
Qed.

Lemma rotating_ext (limit : Z) (name name' : nat -> FileName) (c : Z)
    (cur : FileName) (now : nat) (script : list Streamer.Inbound) :
  name = name' ->
  rotating limit name c cur now script
  = rotating limit name' c cur now script.
Proof. intros ->. reflexivity. Qed.

Lemma receive_repeating (script : list Streamer.Inbound) :
  forall (w : World) (h : Handler),
  do_continue w = true -> connected w = true -> handler w = Some h ->
  repeating h -> 0 <= counter h < limit h -> steady script ->
  let r := Streamer.receive script w in
  let n := Query.len (records script) in
  status_of r = Waiting /\ do_continue (world_of r) = true /\
  exists h', handler (world_of r) = Some h' /\ repeating h' /\
    limit h' = limit h /\
    counter h' = (counter h + n) mod limit h /\
    count is_closed (events_of r) = (counter h + n) / limit h /\
    count is_wrote (events_of r) = n /\
    (counter h' = 0 -> records script <> [] -> startingup h' = true) /\
    written (events_of r)
    = rotating (limit h) (name_at h) (counter h) (target h) (clock w)
        script /\
    one_at_a_time (open_file h) (events_of r) /\
    open_after (open_file h) (events_of r) = open_file h' /\
    (records script = [] -> h' = h).
Proof.
  induction script as [|[data|seconds|] script IH];
    intros w h Hflag Hconn Hh Hrep Hc Hsteady.
  - cbn. split; [reflexivity|]. split; [exact Hflag|].
    exists h. split; [exact Hh|]. split; [exact Hrep|]. split; [reflexivity|].
    change (Query.len []) with 0. rewrite Z.add_0_r.
    rewrite Z.mod_small, Z.div_small by lia.
    repeat split; auto; try (intros _ Hne; congruence).
  - inversion Hsteady as [|x xs Hx Hxs]; subst.
    destruct (on_success_repeating w h data Hflag Hh Hrep Hx)
      as (w1 & h1 & ev1 & E & Hflag1 & Hconn1 & Hclock1 & Hh1 & Hrep1 & Hlim1
          & Hname1 & Hwr1 & Hwn1 & Hone1 & Haft1 & Hcase).
    cbn [Streamer.receive records rotating]. rewrite Hconn, E.
    assert (Hc1 : 0 <= counter h1 < limit h1).
    { rewrite Hlim1. destruct Hcase as [[? [? _]]|[? [? _]]]; lia. }
    specialize (IH w1 h1 Hflag1 (eq_trans Hconn1 Hconn) Hh1 Hrep1 Hc1 Hxs).
    cbv zeta in IH.
    destruct IH as (Hst & Hfl & h' & Hh' & Hrep' & Hlim' & Hcnt & Hcl & Hwrt
                    & Hsu & Hwn & Hone & Haft & Hsame).
    unfold prepend. cbn [status_of world_of events_of]. cbv zeta.
    split; [exact Hst|]. split; [exact Hfl|].
    exists h'. split; [exact Hh'|]. split; [exact Hrep'|].
    split; [congruence|].
    rewrite !count_app, Hwr1, Hcl, Hwrt, len_cons.
    pose proof (len_nonneg (records script)) as Hlen.
    assert (Hlast : counter h' = 0 -> data :: records script <> [] ->
                    startingup h' = true).
    { intros H0 _. destruct (records script) as [|d2 ds2] eqn:Erec.
      - rewrite (Hsame eq_refl) in *.
        change (Query.len []) with 0 in Hcnt. rewrite Z.add_0_r in Hcnt.
        destruct Hcase as [[_ [Hz [_ [Hsu1 _]]]]|[_ [Hz _]]]; [exact Hsu1|].
        rewrite Z.mod_small in Hcnt by lia. lia.
      - apply Hsu; [exact H0|discriminate]. }
    split; [|split; [|split; [lia|split; [exact Hlast|]]]].
    + rewrite Hcnt, Hlim1.
      destruct Hcase as [[Heq [Hz _]]|[Hne [Hz _]]]; rewrite Hz.
      * replace (counter h + (1 + Query.len (records script)))
          with (Query.len (records script) + 1 * limit h) by lia.
        rewrite Z_mod_plus_full, Z.add_0_l. reflexivity.
      * f_equal. lia.
    + rewrite Hlim1.
      destruct Hcase as [[Heq [Hz [Hc1' _]]]|[Hne [Hz [Hc1' _]]]];
        rewrite Hz, Hc1'.
      * replace (counter h + (1 + Query.len (records script)))
          with (Query.len (records script) + 1 * limit h) by lia.
        rewrite Z.div_add, Z.add_0_l by lia. lia.
      * replace (counter h + (1 + Query.len (records script)))
          with (counter h + 1 + Query.len (records script)) by lia.
        lia.
    + split; [|split].
      * rewrite written_app, Hwn1, Hwn, Hlim1, Hname1, Hclock1. cbn [app].
        f_equal.
        destruct Hcase as [[Heq [Hz [_ [_ Ht]]]]|[Hne [Hz [_ Ht]]]];
          rewrite Hz, Ht.
        -- replace (counter h + 1 =? limit h) with true
             by (symmetry; apply Z.eqb_eq; exact Heq).
           reflexivity.
        -- replace (counter h + 1 =? limit h) with false
             by (symmetry; apply Z.eqb_neq; exact Hne).
           reflexivity.
      * apply one_at_a_time_app; [exact Hone1|]. rewrite Haft1. exact Hone.
      * split; [rewrite open_after_app, Haft1; exact Haft|].
        intros Hnil. discriminate.
  - inversion Hsteady as [|x xs Hx Hxs]; subst.
    cbn [Streamer.receive records rotating].
    apply (IH (with_clock (clock w + seconds) w) h); auto.
  - inversion Hsteady as [|x xs Hx Hxs]; subst. contradiction.
Qed.

(** One turn of the generator's loop over a page. *)
Lemma yield_each_cons (consume : Tweet -> M unit) (data : Tweet)
    (datas : list Tweet) (w : World) :
  Query.yield_each consume (data :: datas) w =
    match (consume data ;; handler_counter_incr ;; handler_do_continue) w with
    | (Return b, w1, ev1) =>
        let '(r2, w2, ev2) :=
          (if Bool.eqb b false then ret true
           else Query.yield_each consume datas) w1 in
        (r2, w2, Yielded data :: ev1 ++ ev2)
    | (Raise e, w1, ev1) => (Raise e, w1, Yielded data :: ev1)
    end.
Proof.
  cbn [Query.yield_each]. unfold bind, emit.
  destruct (consume data w) as [[[u|e] w1] ev1]; [|reflexivity].
  destruct (handler_counter_incr w1) as [[[u2|e] w2] ev2];
    [|rewrite ?app_nil_r; reflexivity].
  destruct (handler_do_continue w2) as [[[b|e] w3] ev3];
    [|rewrite ?app_nil_r; reflexivity].
  match goal with
  | |- context [(if ?c then _ else _) w3] =>
      destruct ((if c then ret true else Query.yield_each consume datas) w3)
        as [[r4 w4] ev4]
  end.
  cbn [app]. rewrite !app_assoc. reflexivity.
Qed.

(** The same record through the search generator's bookkeeping. *)
Lemma search_turn_repeating (w : World) (h : Handler) (data : Tweet) :
  handler w = Some h -> repeating h ->
  exists w' h' ev,
    (handler_handle data ;; handler_counter_incr ;; handler_do_continue) w
    = (Return true, w', ev) /\
    clock w' = clock w /\
    handler w' = Some h' /\ repeating h' /\ limit h' = limit h /\
    name_at h' = name_at h /\
    count is_wrote ev = 1 /\ count is_yielded ev = 0 /\
    written ev = [(target h, data)] /\
    one_at_a_time (open_file h) ev /\
    open_after (open_file h) ev = open_file h' /\
    ((counter h + 1 = limit h /\ counter h' = 0 /\ count is_closed ev = 1 /\
      startingup h' = true /\ target h' = name_at h (clock w)) \/
     (counter h + 1 <> limit h /\ counter h' = counter h + 1 /\
      count is_closed ev = 0 /\ target h' = target h)).
Proof.
  intros Hh [Hcls [Hrep [Hdate [Hstop Hw]]]].
  unfold writable, repeating, name_at, open_file, target in *.
  open_world w h Hh. run.
  destruct hstart; cbn.
  - destruct (hcounter + 1 =? hlimit) eqn:E; cbn.
    + apply Z.eqb_eq in E.
      destruct (String.eqb hsubdir ""); cbn;
        [|destruct (existsb (String.eqb hsubdir) wdirs); cbn];
        eexists; eexists; eexists;
        (split; [reflexivity|]); cbn;
        repeat (split; auto); try (left; repeat split; auto).
    + apply Z.eqb_neq in E.
      eexists; eexists; eexists;
        (split; [reflexivity|]); cbn;
        repeat (split; auto); try (right; eexists; split; reflexivity);
        try (right; repeat split; auto).
  - destruct Hw as [Hw|[[nm cl] [Hf Hcl]]]; [discriminate|].
    cbn in *. inversion Hf; subst. cbn.
    destruct (hcounter + 1 =? hlimit) eqn:E; cbn.
    + apply Z.eqb_eq in E.
      destruct (String.eqb hsubdir ""); cbn;
        [|destruct (existsb (String.eqb hsubdir) wdirs); cbn];
        eexists; eexists; eexists;
        (split; [reflexivity|]); cbn;
        repeat (split; auto); try (left; repeat split; auto).
    + apply Z.eqb_neq in E.
      eexists; eexists; eexists;
        (split; [reflexivity|]); cbn;
        repeat (split; auto); try (right; eexists; split; reflexivity);
        try (right; repeat split; auto).
Qed.

Lemma yield_each_repeating (datas : list Tweet) :
  forall (w : World) (h : Handler),
  handler w = Some h -> repeating h -> 0 <= counter h < limit h ->
  exists w' h' ev,
    Query.yield_each handler_handle datas w = (Return false, w', ev) /\
    handler w' = Some h' /\ repeating h' /\ limit h' = limit h /\
    counter h' = (counter h + Query.len datas) mod limit h /\
    count is_closed ev = (counter h + Query.len datas) / limit h /\
    count is_wrote ev = Query.len datas /\
    count is_yielded ev = Query.len datas /\
    written ev
    = rotating (limit h) (name_at h) (counter h) (target h) (clock w)
        (map Streamer.Message datas) /\
    one_at_a_time (open_file h) ev /\
    open_after (open_file h) ev = open_file h'.
Proof.
  induction datas as [|data datas IH]; intros w h Hh Hrep Hc.
  - exists w, h, []. cbn [Query.yield_each count].
    change (Query.len []) with 0. rewrite Z.add_0_r.
    rewrite Z.mod_small, Z.div_small by lia.
    split; [reflexivity|]. split; [exact Hh|]. split; [exact Hrep|].
    repeat split; reflexivity.
  - destruct (search_turn_repeating w h data Hh Hrep)
      as (w1 & h1 & ev1 & E & Hclock1 & Hh1 & Hrep1 & Hlim1 & Hname1 & Hwr1
          & Hy1 & Hwn1 & Hone1 & Haft1 & Hcase).
    assert (Hc1 : 0 <= counter h1 < limit h1).
    { rewrite Hlim1. destruct Hcase as [[? [? _]]|[? [? _]]]; lia. }
    destruct (IH w1 h1 Hh1 Hrep1 Hc1)
      as (w' & h' & ev & E' & Hh' & Hrep' & Hlim' & Hcnt & Hcl & Hwrt & Hyl
          & Hwn & Hone & Haft).
    rewrite yield_each_cons, E. cbn [Bool.eqb]. rewrite E'.
    exists w', h', (Yielded data :: ev1 ++ ev).
    split; [reflexivity|]. split; [exact Hh'|]. split; [exact Hrep'|].
    split; [congruence|].
    pose proof (len_nonneg datas) as Hlen.
    cbn [count is_closed is_wrote is_yielded written one_at_a_time
         open_after map rotating].
    rewrite !count_app, Hwr1, Hcl, Hwrt, Hyl, Hy1, len_cons, Hcnt, Hlim1.
    rewrite written_app, Hwn1, Hwn, Hlim1, Hname1, Hclock1, open_after_app,
      Haft1.
    assert (Hone' : one_at_a_time (open_file h) (ev1 ++ ev)).
    { apply one_at_a_time_app; [exact Hone1|]. rewrite Haft1. exact Hone. }
    destruct Hcase as [[Heq [Hz [Hc1' [_ Ht]]]]|[Hne [Hz [Hc1' Ht]]]];
      rewrite Hz, Hc1', Ht.
    + replace (counter h + 1 =? limit h) with true
        by (symmetry; apply Z.eqb_eq; exact Heq).
      replace (counter h + (1 + Query.len datas))
        with (Query.len datas + 1 * limit h) by lia.
      rewrite Z_mod_plus_full, Z.div_add, Z.add_0_l by lia.
      repeat split; auto; lia.
    + replace (counter h + 1 =? limit h) with false
        by (symmetry; apply Z.eqb_neq; exact Hne).
      replace (counter h + (1 + Query.len datas))
        with (counter h + 1 + Query.len datas) by lia.
      repeat split; auto; lia.
Qed.

Lemma restart_file_eq (w : World) (h : Handler) (f : File) :
  handler w = Some h -> output h = Some f -> f_closed f = false ->
  exists w' h' ev,
    TweetWriter._restart_file w =
      (Return tt, w',
       Printed (MsgWritten (counter h)) :: Closed (f_name f) :: ev) /\
    handler w' = Some h' /\ counter h' = 0 /\ startingup h' = true /\
    output h' = Some (mkFile (f_name f) true) /\
    fname h' = mkFileName (TweetWriter.path_join (subdir h) (fprefix h))
                 (clock w) (if gzip_compress h then ".gz" else "") /\
    count is_closed ev = 0.
Proof.
  intros Hh Ho Hc. open_world w h Hh. destruct f as [nm cl]. cbn in *. subst.
  run.
  destruct (String.eqb hsubdir ""); cbn;
    [|destruct (existsb (String.eqb hsubdir) wdirs); cbn];
    eexists; eexists; eexists; (split; [reflexivity|]); cbn;
    repeat split; reflexivity.
Qed.

Lemma while_waiting (fuel : nat)
    (body : list Streamer.Inbound -> World -> Run Streamer.Inbound)
    (script : list Streamer.Inbound) (w : World) :
  do_continue w = true -> status_of (body script w) = Waiting ->
  Streamer.while_do_continue (S fuel) body script w = body script w.
Proof.
  intros Hflag Hst. cbn [Streamer.while_do_continue].
  rewrite Hflag, Hst. reflexivity.
Qed.

(** X15.  What a [TweetWriter] in repeat mode does with its files.  The
    writer
    has no date boundary, is fresh (counter 0) and has a positive [limit];
    records with a text arrive, with time passing between them.  Through
    the streaming engine: every record is written, the engine never stops
    (it is still waiting for more, its flag up, and [do_continue()] still
    answers [True]), the counter is the number of records modulo [limit],
    and the number of files closed is the number of records divided by
    [limit]; since this holds after every prefix, a rotation happens at
    every [limit]-th record and at no other.  Right after a rotation
    [startingup] is set.  The first [limit] records go to the current
    file, and after every [limit] records the records go to the file named
    by the clock reading at the moment of the rotation.  One file is open
    at a time: it is opened once, before the first record that goes to it,
    and closed after the last.  Through the search generator, where no
    time passes: the same, and the loop over the page runs to its end,
    never cut short by the continuation predicate.  The last part is the
    rotation itself: [_restart_file] prints the summary, closes the open
    target, takes the name of the present timestamp, sets [startingup] and
    resets the counter to 0. *)
Theorem rotation_every_limit (w : World) (h : Handler)
    (script : list Streamer.Inbound)
    (Hflag : do_continue w = true) (Hh : handler w = Some h)
    (Hrep : repeating h) (Hc : counter h = 0) (Hl : 0 < limit h)
    (Hsteady : steady script) :
  (let r := Streamer.sample script w in
   let n := Query.len (records script) in
   status_of r = Waiting /\ do_continue (world_of r) = true /\
   exists h', handler (world_of r) = Some h' /\
     count is_wrote (events_of r) = n /\
     count is_closed (events_of r) = n / limit h /\
     counter h' = n mod limit h /\
     (counter h' = 0 -> records script <> [] -> startingup h' = true) /\
     result (handler_do_continue (world_of r)) = Return true /\
     written (events_of r)
     = rotating (limit h) (name_at h) 0 (target h) (clock w) script /\
     one_at_a_time (open_file h) (events_of r)) /\
  (let datas := records script in
   let g := Query.yield_each handler_handle datas w in
   result g = Return false /\
   exists h', handler (world g) = Some h' /\
     count is_yielded (events g) = Query.len datas /\
     count is_wrote (events g) = Query.len datas /\
     count is_closed (events g) = Query.len datas / limit h /\
     counter h' = Query.len datas mod limit h /\
     written (events g)
     = rotating (limit h) (name_at h) 0 (target h) (clock w)
         (map Streamer.Message datas) /\
     one_at_a_time (open_file h) (events g)) /\
  (forall w0 h0 f, handler w0 = Some h0 -> output h0 = Some f ->
     f_closed f = false ->
     exists w' h' ev,
       TweetWriter._restart_file w0 =
         (Return tt, w',
          Printed (MsgWritten (counter h0)) :: Closed (f_name f) :: ev) /\
       handler w' = Some h' /\ counter h' = 0 /\ startingup h' = true /\
       output h' = Some (mkFile (f_name f) true) /\
       fname h' = name_at h0 (clock w0) /\
       count is_closed ev = 0).
Proof.
  assert (Hc1 : 0 <= counter h < limit h) by lia.
  split; [|split; [|apply restart_file_eq]].
  - unfold Streamer.sample.
    assert (Hh1 : handler (with_connected true w) = Some h) by exact Hh.
    destruct (receive_repeating script (with_connected true w) h Hflag eq_refl
                Hh1 Hrep Hc1 Hsteady)
      as (Hst & Hfl & h' & Hh' & Hrep' & Hlim' & Hcnt & Hcl & Hwr & Hsu & Hwn
          & Hone & _).
    cbv zeta in *.
    rewrite while_waiting
      by (auto; unfold Streamer.statuses, prepend; exact Hst).
    unfold Streamer.statuses.
    set (rr := Streamer.receive script (with_connected true w)) in *.
    unfold prepend.
    cbn [status_of world_of events_of count is_wrote is_closed app written
         one_at_a_time].
    rewrite Hc, Z.add_0_l in *.
    split; [exact Hst|]. split; [exact Hfl|].
    exists h'. split; [exact Hh'|].
    split; [rewrite ?Z.add_0_l; exact Hwr|].
    split; [rewrite ?Z.add_0_l; exact Hcl|].
    split; [exact Hcnt|]. split; [exact Hsu|].
    split; [|split; [exact Hwn|exact Hone]].
    destruct Hrep' as [Hcls' [Hrp' [_ [Hstop' _]]]].
    assert (Hlt : 0 <= counter h' < limit h').
    { rewrite Hcnt, Hlim'. apply Z.mod_pos_bound. exact Hl. }
    clear - Hh' Hcls' Hrp' Hstop' Hlt.
    destruct (world_of rr) as [wh wflag wconn wclock wdirs].
    cbn in Hh'. subst wh.
    destruct h' as [hcls hlimit hcounter hstop hdate hstart hprefix hsubdir
                    hgz hfname hstream hrepeat hmax hout]; cbn in *; subst.
    run.
    replace (hcounter =? hlimit) with false
      by (symmetry; apply Z.eqb_neq; lia).
    reflexivity.
  - destruct (yield_each_repeating (records script) w h Hh Hrep Hc1)
      as (w' & h' & ev & E & Hh' & _ & _ & Hcnt & Hcl & Hwr & Hyl & Hwn
          & Hone & _).
    cbv zeta. rewrite E. cbn [result world events fst snd].
    rewrite Hc, Z.add_0_l in *.
    split; [reflexivity|]. exists h'. repeat split; assumption.
Qed.

Lemma rotation_every_limit_witness :
  let script :=
    [Streamer.Tick 3; Streamer.Message (ex_tweet 1);
     Streamer.Message (ex_tweet 2); Streamer.Tick 1;
     Streamer.Message (ex_tweet 3); Streamer.Message (ex_tweet 4);
     Streamer.Message (ex_tweet 5)] in
  let r := Streamer.sample script (ex_world (ex_writer 2 None true true)) in
  status_of r = Waiting /\ count is_closed (events_of r) = 2 /\
  written (events_of r)
  = [(ex_fname, ex_tweet 1); (ex_fname, ex_tweet 2);
     (mkFileName "twitter-files/tweets" 3 "", ex_tweet 3);
     (mkFileName "twitter-files/tweets" 3 "", ex_tweet 4);
     (mkFileName "twitter-files/tweets" 4 "", ex_tweet 5)].
Proof.
  intros script r.
  assert (Hrep : repeating (ex_writer 2 None true true)).
  { unfold repeating, writable. repeat split; try reflexivity.
    left. reflexivity. }
  assert (Hsteady : steady script).
  { repeat constructor; discriminate. }
  destruct (proj1 (rotation_every_limit
                     (ex_world (ex_writer 2 None true true))
                     (ex_writer 2 None true true) script
                     eq_refl eq_refl Hrep eq_refl eq_refl Hsteady))
    as (Hst & _ & h' & _ & _ & Hcl & _ & _ & _ & Hwn & _).
  split; [exact Hst|]. split; [exact Hcl|exact Hwn].
Defined.

(** C5.  The rotation of a [TweetWriter] in repeat mode takes the name of
    the present second, and that need not be a new name.  Here [limit] is 2
    and the writer was made at second 0.  Two records arrive at second 3
    and go to the file of second 0, which is then closed; the rotation
    names the next file after second 3.  Two more records arrive within
    second 3: they go to that file, and the rotation that follows names
    the next file after second 3 again.  The fifth record, a second later,
    opens the file of second 3 for writing once more, so that the third and
    the fourth record are overwritten; no third file is made. *)
Theorem rotation_overwrites_within_a_second :
  let f0 := ex_fname in
  let f3 := mkFileName "twitter-files/tweets" 3 "" in
  let r := Streamer.sample
             [Streamer.Tick 3; Streamer.Message (ex_tweet 1);
              Streamer.Message (ex_tweet 2); Streamer.Message (ex_tweet 3);
              Streamer.Message (ex_tweet 4); Streamer.Tick 1;
              Streamer.Message (ex_tweet 5)]
             (ex_world (ex_writer 2 None true true)) in
  events_of r
  = [StreamRequest StatusesSample;
     Opened f0 false; Printed (MsgWritingTo f0);
     Wrote f0 false (ex_tweet 1); Wrote f0 false (ex_tweet 2);
     Printed (MsgWritten 2); Closed f0;
     Opened f3 false; Printed (MsgWritingTo f3);
     Wrote f3 false (ex_tweet 3); Wrote f3 false (ex_tweet 4);
     Printed (MsgWritten 2); Closed f3;
     Opened f3 false; Printed (MsgWritingTo f3);
     Wrote f3 false (ex_tweet 5)] /\
  status_of r = Waiting /\
  count is_opened (events_of r) = 3.
Proof. vm_compute. repeat split; reflexivity. Qed.

(** ** The counter of the viewer *)

Lemma handle_of_viewer (data : Tweet) (w : World) (h : Handler) (s : string) :
  handler w = Some h -> cls h = TweetViewer -> t_text data = Some s ->
  handler_handle data w =
    (Return tt, with_handler (Some (set_counter (counter h + 1) h)) w,
     [Printed (MsgText s)]).
Proof.
  intros Hh Hc Ht. unfold handler_handle.
  rewrite (self_bind _ w h Hh), Hc. unfold TweetViewer.handle. rewrite Ht.
  rewrite (bind_eq _ _ w w tt [Printed (MsgText s)]) by reflexivity.
  unfold update_handler. rewrite (self_bind _ w h Hh). reflexivity.
Qed.

Lemma do_continue_default (w : World) (h : Handler) :
  handler w = Some h -> cls h <> TweetWriter ->
  handler_do_continue w =
    (Return ((counter h <? limit h) && negb (do_stop h)), w, []).
Proof.
  intros Hh Hc. unfold handler_do_continue.
  rewrite (self_bind _ w h Hh).
  destruct (cls h); try congruence;
    unfold TweetHandlerI.do_continue; rewrite (self_bind _ w h Hh);
    reflexivity.
Qed.

(** One record through [on_success] on a viewer: the engine counts it and
    [TweetViewer.handle] counts it again. *)
Lemma on_success_viewer (w : World) (h : Handler) (data : Tweet) (s : string) :
  do_continue w = true -> handler w = Some h -> cls h = TweetViewer ->
  t_text data = Some s ->
  Streamer.on_success data w =
    (Return tt,
     with_do_continue ((counter h + 1 + 1 <? limit h) && negb (do_stop h))
       (with_handler (Some (set_counter (counter h + 1 + 1) h)) w),
     [Printed (MsgText s)]).
Proof.
  intros Hflag Hh Hcls Ht. unfold Streamer.on_success.
  open_world w h Hh. run. rewrite Ht. cbn. reflexivity.
Qed.

Lemma receive_viewer (datas : list Tweet) :
  forall (w : World) (h : Handler),
  do_continue w = true -> connected w = true -> handler w = Some h ->
  cls h = TweetViewer -> do_stop h = false -> Forall has_text datas ->
  counter h + 2 * (Query.len datas - 1) < limit h ->
  let r := Streamer.receive (map Streamer.Message datas) w in
  status_of r = Waiting /\
  exists h', handler (world_of r) = Some h' /\
    counter h' = counter h + 2 * Query.len datas /\
    count is_text (events_of r) = Query.len datas /\
    (datas <> [] ->
     do_continue (world_of r) = (counter h + 2 * Query.len datas <? limit h)).
Proof.
  induction datas as [|data datas IH];
    intros w h Hflag Hconn Hh Hcls Hstop Htext Hk.
  - cbn. split; [reflexivity|]. exists h. split; [exact Hh|].
    change (Query.len []) with 0.
    repeat split; try lia. intros Hne. congruence.
  - inversion Htext as [|x xs Hx Hxs]; subst.
    unfold has_text in Hx.
    destruct (t_text data) as [s|] eqn:Ht; [|congruence].
    cbn [map Streamer.receive].
    rewrite (on_success_viewer w h data s Hflag Hh Hcls Ht).
    rewrite Hstop, andb_true_r.
    change (connected (with_do_continue _ (with_handler _ w)))
      with (connected w).
    rewrite Hconn. rewrite len_cons in *.
    pose proof (len_nonneg datas) as Hlen.
    destruct datas as [|d2 ds2].
    + cbn [map Streamer.receive prepend status_of world_of events_of app].
      split; [reflexivity|].
      exists (set_counter (counter h + 1 + 1) h).
      split; [reflexivity|].
      change (Query.len []) with 0. cbn [counter set_counter count is_text].
      split; [lia|]. split; [lia|]. intros _.
      cbn [do_continue with_do_continue]. f_equal. lia.
    + assert (Hlt : (counter h + 1 + 1 <? limit h) = true).
      { apply Z.ltb_lt. rewrite len_cons in Hk.
        pose proof (len_nonneg ds2). lia. }
      rewrite Hlt.
      set (h1 := set_counter (counter h + 1 + 1) h).
      set (w1 := with_do_continue true (with_handler (Some h1) w)).
      assert (Hk1 : counter h1 + 2 * (Query.len (d2 :: ds2) - 1) < limit h1).
      { cbn [counter limit h1 set_counter]. lia. }
      destruct (IH w1 h1 eq_refl Hconn eq_refl Hcls Hstop Hxs Hk1)
        as [Hst [h' [Hh' [Hcnt [Htxt Hfl]]]]].
      unfold prepend. cbn [status_of world_of events_of].
      split; [exact Hst|].
      exists h'. split; [exact Hh'|].
      split; [rewrite Hcnt; cbn [counter h1 set_counter]; lia|].
      split; [rewrite count_app, Htxt; cbn [count is_text]; lia|].
      intros _. rewrite Hfl by discriminate.
      cbn [counter limit h1 set_counter]. f_equal. lia.
Qed.

Lemma yield_each_viewer (datas : list Tweet) :
  forall (w : World) (h : Handler),
  handler w = Some h -> cls h = TweetViewer -> do_stop h = false ->
  Forall has_text datas -> datas <> [] ->
  counter h + 2 * (Query.len datas - 1) < limit h ->
  exists w' h' ev,
    Query.yield_each handler_handle datas w =
      (Return (negb (counter h + 2 * Query.len datas <? limit h)), w', ev) /\
    handler w' = Some h' /\
    counter h' = counter h + 2 * Query.len datas /\
    count is_yielded ev = Query.len datas /\
    count is_text ev = Query.len datas.
Proof.
  induction datas as [|data datas IH];
    intros w h Hh Hcls Hstop Htext Hne Hk; [congruence|].
  inversion Htext as [|x xs Hx Hxs]; subst.
  unfold has_text in Hx.
  destruct (t_text data) as [s|] eqn:Ht; [|congruence].
  rewrite len_cons in *. pose proof (len_nonneg datas) as Hlen.
  set (h1 := set_counter (counter h + 1 + 1) h).
  set (w1 := with_handler (Some h1) w).
  assert (E :
    Query.yield_each handler_handle (data :: datas) w =
      (let '(r, w2, ev2) :=
         (if Bool.eqb ((counter h1 <? limit h1) && negb (do_stop h1)) false
          then ret true else Query.yield_each handler_handle datas) w1 in
       (r, w2, Yielded data :: Printed (MsgText s) :: ev2))).
  { cbn [Query.yield_each].
    set (hA := set_counter (counter h + 1) h).
    set (wA := with_handler (Some hA) w).
    rewrite (bind_eq _ _ w w tt [Yielded data]) by reflexivity.
    rewrite (bind_eq _ _ _ _ _ _ (handle_of_viewer data w h s Hh Hcls Ht)).
    rewrite (bind_eq _ _ _ _ _ _ (counter_incr_eq wA hA eq_refl)).
    rewrite (bind_eq _ _ _ _ _ _
               (do_continue_default w1 h1 eq_refl
                  ltac:(cbn; rewrite Hcls; discriminate))).
    pose (X := (if Bool.eqb ((counter h1 <? limit h1) && negb (do_stop h1)) false
                then ret true else Query.yield_each handler_handle datas) w1).
    change ((result X, world X,
             [Yielded data] ++ [Printed (MsgText s)] ++ [] ++ [] ++ events X) =
            (let '(r, w2, ev2) := X in
             (r, w2, Yielded data :: Printed (MsgText s) :: ev2))).
    destruct X as [[r w2] ev2]. reflexivity. }
  rewrite E. clear E.
  change (do_stop h1) with (do_stop h).
  rewrite Hstop, andb_true_r.
  destruct datas as [|d2 ds2].
  - change (Query.len []) with 0.
    change (counter h1) with (counter h + 1 + 1).
    change (limit h1) with (limit h).
    replace (counter h + 2 * (1 + 0)) with (counter h + 1 + 1) by lia.
    exists w1, h1, [Yielded data; Printed (MsgText s)].
    destruct (counter h + 1 + 1 <? limit h) eqn:Hlt; cbn [Bool.eqb negb];
      (split; [reflexivity|]); (split; [reflexivity|]);
      (split; [reflexivity|]); split; reflexivity.
  - assert (Hlt : (counter h1 <? limit h1) = true).
    { apply Z.ltb_lt. cbn [counter limit h1 set_counter].
      rewrite len_cons in Hk. pose proof (len_nonneg ds2). lia. }
    rewrite Hlt. cbn [Bool.eqb].
    assert (Hk1 : counter h1 + 2 * (Query.len (d2 :: ds2) - 1) < limit h1).
    { cbn [counter limit h1 set_counter]. lia. }
    destruct (IH w1 h1 eq_refl Hcls Hstop Hxs ltac:(discriminate) Hk1)
      as [w' [h' [ev [E [Hh' [Hcnt [Hy Htxt]]]]]]].
    rewrite E.
    exists w', h', (Yielded data :: Printed (MsgText s) :: ev).
    cbn [counter limit h1 set_counter] in *.
    replace (counter h + 2 * (1 + Query.len (d2 :: ds2)))
      with (counter h + 1 + 1 + 2 * Query.len (d2 :: ds2)) by lia.
    split; [reflexivity|]. split; [exact Hh'|]. split; [exact Hcnt|].
    cbn [count is_yielded is_text]. rewrite Hy, Htxt. split; lia.
Qed.

Lemma writer_handle_keeps_counter (w : World) (h : Handler) (data : Tweet) :
  handler w = Some h ->
  exists h', handler (world (TweetWriter.handle data w)) = Some h' /\
             counter h' = counter h.
Proof.
  intros Hh. open_world w h Hh. run.
  destruct hstart, hout as [[nm [|]]|], hdate as [d|],
    (t_created_at data) as [td|], hstream; cbn;
    try (destruct (td >? d)); try (destruct (td <? d)); cbn;
    eexists; (split; [reflexivity|]); reflexivity.
Qed.

(** C9.  With a [TweetViewer] registered (fresh: counter 0), every record
    is counted twice, once by the engine and once in [TweetViewer.handle]:
    after [k] records the counter is [2 * k], in the streaming engine and
    in the search generator alike.  As long as [2 * (k - 1) < limit] all
    [k] records are displayed, and the default continuation predicate
    stops the engine with the [k]-th exactly when [2 * k >= limit], that
    is after about half of [limit] records.  [TweetWriter.handle], in
    contrast, leaves the counter as it is, whether it returns or raises. *)
Theorem viewer_counts_twice (w : World) (h : Handler) (datas : list Tweet)
    (Hh : handler w = Some h) (Hcls : cls h = TweetViewer)
    (Hc : counter h = 0) (Hstop : do_stop h = false)
    (Htext : Forall has_text datas) (Hne : datas <> [])
    (Hk : 2 * (Query.len datas - 1) < limit h) :
  (do_continue w = true ->
   let r := Streamer.sample (map Streamer.Message datas) w in
   exists h', handler (world_of r) = Some h' /\
     counter h' = 2 * Query.len datas /\
     count is_text (events_of r) = Query.len datas /\
     do_continue (world_of r) = (2 * Query.len datas <? limit h)) /\
  (let g := Query.yield_each handler_handle datas w in
   result g = Return (negb (2 * Query.len datas <? limit h)) /\
   exists h', handler (world g) = Some h' /\
     counter h' = 2 * Query.len datas /\
     count is_yielded (events g) = Query.len datas /\
     count is_text (events g) = Query.len datas) /\
  (forall (w0 : World) (h0 : Handler) (data : Tweet),
     handler w0 = Some h0 ->
     exists h', handler (world (TweetWriter.handle data w0)) = Some h' /\
                counter h' = counter h0).
Proof.
  split; [|split].
  - intros Hflag r. subst r. unfold Streamer.sample.
    assert (Hk1 : counter h + 2 * (Query.len datas - 1) < limit h) by lia.
    destruct (receive_viewer datas (with_connected true w) h Hflag eq_refl Hh
                Hcls Hstop Htext Hk1) as [Hst [h' [Hh' [Hcnt [Htxt Hfl]]]]].
    rewrite while_waiting
      by (auto; unfold Streamer.statuses, prepend; exact Hst).
    unfold Streamer.statuses, prepend.
    cbn [status_of world_of events_of count is_text app].
    rewrite Hc, Z.add_0_l in *.
    exists h'. split; [exact Hh'|]. split; [exact Hcnt|].
    split; [rewrite ?Z.add_0_l; exact Htxt|]. apply Hfl, Hne.
  - intros g. subst g.
    assert (Hk1 : counter h + 2 * (Query.len datas - 1) < limit h) by lia.
    destruct (yield_each_viewer datas w h Hh Hcls Hstop Htext Hne Hk1)
      as [w' [h' [ev [E [Hh' [Hcnt [Hy Htxt]]]]]]].
    rewrite E. rewrite Hc, Z.add_0_l in *.
    split; [reflexivity|]. exists h'. auto.
  - intros w0 h0 data Hh0. apply writer_handle_keeps_counter, Hh0.
Qed.

Lemma viewer_counts_twice_witness :
  let g := Query.yield_each handler_handle (map ex_tweet [1; 2; 3])
             (ex_world (ex_viewer 5)) in
  result g = Return true /\
  exists h', handler (world g) = Some h' /\ counter h' = 6.
Proof.
  intros g.
  assert (Htext : Forall has_text (map ex_tweet [1; 2; 3])).
  { repeat constructor; discriminate. }
  destruct (proj1 (proj2 (viewer_counts_twice (ex_world (ex_viewer 5))
                            (ex_viewer 5) (map ex_tweet [1; 2; 3])
                            eq_refl eq_refl eq_refl eq_refl Htext
                            ltac:(discriminate) eq_refl)))
    as [Hres [h' [Hh' [Hc _]]]].
  split; [exact Hres|]. exists h'. split; [exact Hh'|exact Hc].
Defined.

(** ** The end of a streaming session *)

Lemma prepend_nil {R : Type} (r : Run R) : prepend [] r = r.
Proof. destruct r. reflexivity. Qed.

Lemma prepend_prepend {R : Type} (a b : list Event) (r : Run R) :
  prepend a (prepend b r) = prepend (a ++ b) r.
Proof. unfold prepend. cbn. rewrite app_assoc. reflexivity. Qed.






(** ** The arguments of [filter] *)

(** Nothing below [filter] raises the invalid-argument error of [filter]. *)
Lemma on_success_not_msg (data : Tweet) (w : World) :
  result (Streamer.on_success data w) <> Raise (ValueError Streamer.msg).
Proof.
  unfold Streamer.on_success, Streamer.disconnect, Streamer.msg.
  destruct w as [[h|] wflag wconn wclock wdirs];
    [|destruct wflag; run; discriminate].
  destruct h as [hcls hlimit hcounter hstop hdate hstart hprefix hsubdir hgz
                 hfname hstream hrepeat hmax hout].
  destruct wflag.
  - destruct (t_text data) as [s|] eqn:Ht; [|run; rewrite ?Ht; discriminate].
    destruct hcls; run; rewrite ?Ht; cbn; try discriminate.
    destruct hstart, hout as [[nm [|]]|], hdate as [d|],
      (t_created_at data) as [td|], hstream, hrepeat, hstop; cbn;
      try (destruct (td >? d)); try (destruct (td <? d)); cbn;
      try discriminate;
      try (destruct (hcounter + 1 <? hlimit); cbn; discriminate);
      destruct (hcounter + 1 =? hlimit); cbn; try discriminate;
      destruct (String.eqb hsubdir ""); cbn; try discriminate;
      destruct (existsb (String.eqb hsubdir) wdirs); cbn; discriminate.
  - destruct hcls; run; try discriminate.
    destruct hout as [[nm [|]]|]; cbn; discriminate.
Qed.

Lemma receive_not_msg (script : list Streamer.Inbound) :
  forall w : World,
  status_of (Streamer.receive script w) <> Failed (ValueError Streamer.msg).
Proof.
  induction script as [|[data|seconds|] script IH]; intros w;
    cbn [Streamer.receive status_of]; try discriminate; [|apply IH].
  destruct (connected w); [|discriminate].
  pose proof (on_success_not_msg data w) as H.
  destruct (Streamer.on_success data w) as [[[u|e] w1] ev1];
    cbn [result fst] in H.
  - cbn [prepend status_of]. apply IH.
  - cbn [status_of]. congruence.
Qed.

Lemma while_not_msg (fuel : nat)
    (body : list Streamer.Inbound -> World -> Run Streamer.Inbound) :
  (forall script w,
     status_of (body script w) <> Failed (ValueError Streamer.msg)) ->
  forall script w,
  status_of (Streamer.while_do_continue fuel body script w)
  <> Failed (ValueError Streamer.msg).
Proof.
  intros Hbody. induction fuel as [|fuel IH]; intros script w; cbn;
    [discriminate|].
  destruct (do_continue w); cbn; [|discriminate].
  pose proof (Hbody script w) as H.
  destruct (status_of (body script w)) as [|[]| |] eqn:E; cbn;
    try apply IH; rewrite E; try discriminate; exact H.
Qed.

(** C8, amended.  [filter] with both [track] and [follow] empty raises the
    invalid-argument error before anything is sent, provided the
    streamer's continuation flag is up, as it is on a new streamer; with
    the flag down the call returns at once, with no error and nothing sent.
    With [track] or [follow] non-empty that error is never raised. *)
Theorem filter_requires_track_or_follow (w : World)
    (track follow lang : string) (script : list Streamer.Inbound) :
  (do_continue w = true -> track = "" -> follow = "" ->
   Streamer.filter track follow lang script w =
     mkRun (Failed (ValueError Streamer.msg)) w [] script) /\
  (do_continue w = false ->
   Streamer.filter track follow lang script w = mkRun Finished w [] script) /\
  (track <> "" \/ follow <> "" ->
   status_of (Streamer.filter track follow lang script w)
   <> Failed (ValueError Streamer.msg)).
Proof.
  unfold Streamer.filter. split; [|split].
  - intros Hflag -> ->. cbn [Streamer.while_do_continue].
    rewrite Hflag. reflexivity.
  - intros Hflag. cbn [Streamer.while_do_continue]. rewrite Hflag.
    reflexivity.
  - intros Hne. apply while_not_msg. intros script' w'.
    unfold Streamer.filter_body.
    assert (E : String.eqb track "" && String.eqb follow "" = false).
    { apply andb_false_iff.
      destruct Hne as [H|H]; [left|right]; apply String.eqb_neq; exact H. }
    rewrite E. unfold Streamer.statuses, prepend. cbn [status_of].
    apply receive_not_msg.
Qed.

Lemma filter_requires_track_or_follow_witness :
  Streamer.filter "" "" "en" [Streamer.Message (ex_tweet 1)]
    (ex_world (ex_viewer 2))
  = mkRun (Failed (ValueError Streamer.msg)) (ex_world (ex_viewer 2)) []
      [Streamer.Message (ex_tweet 1)].
Proof.
  exact (proj1 (filter_requires_track_or_follow (ex_world (ex_viewer 2))
                  "" "" "en" [Streamer.Message (ex_tweet 1)])
           eq_refl eq_refl eq_refl).
Defined.

(** C8 does not hold as stated.  On a streamer whose earlier session has
    ended the flag is down, and [filter] with both arguments empty returns
    without raising. *)
Lemma filter_without_arguments_returns :
  let session :=
    Streamer.sample
      [Streamer.Message (ex_tweet 1); Streamer.Message (ex_tweet 2);
       Streamer.Message (ex_tweet 3)]
      (ex_world (ex_viewer 2)) in
  let used := world_of session in
  status_of session = Finished /\
  do_continue used = false /\
  Streamer.filter "" "" "en" [Streamer.Message (ex_tweet 3)] used
  = mkRun Finished used [] [Streamer.Message (ex_tweet 3)].
Proof. vm_compute. repeat split; reflexivity. Qed.

(** ** Transport errors in the pagination loop *)

Lemma len_pos (t : Tweet) (l : list Tweet) : (Query.len (t :: l) =? 0) = false.
Proof. apply Z.eqb_neq. rewrite len_cons. pose proof (len_nonneg l). lia. Qed.

Lemma update_handler_eq (f : Handler -> Handler) (w : World) (h : Handler) :
  handler w = Some h ->
  update_handler f w = (Return tt, with_handler (Some (f h)) w, []).
Proof.
  intros Hh. unfold update_handler. rewrite (self_bind _ w h Hh). reflexivity.
Qed.


(** *** The pagination loop after a failed request *)

Section Pagination.

Variable consume : Tweet -> M unit.
Variables limit n : Z.

(** Every iteration of the pagination loop starts with its request. *)
Lemma pagination_events (answer : Query.Response) (rest : list Query.Response) (l : Query.Locals)
    (w : World) :
  Query.count_from_query l < limit ->
  exists more,
    events_of (Query.pagination consume limit n (answer :: rest) l w) =
      SearchRequest (Z.min 100 (limit - Query.count_from_query l))
        (Query.local_max_id l)
      :: events (Query.iteration consume n answer l w) ++ more.
Proof.
  intros Hlt. cbn [Query.pagination].
  replace (Query.count_from_query l <? limit) with true
    by (symmetry; apply Z.ltb_lt; exact Hlt).
  destruct (Query.iteration consume n answer l w) as [[[[l'|]|e] w'] ev];
    cbn [events snd].
  - eexists. unfold prepend. cbn [events_of]. cbn [app]. reflexivity.
  - exists []. cbn [events_of]. rewrite app_nil_r. reflexivity.
  - exists []. cbn [events_of]. rewrite app_nil_r. reflexivity.
Qed.





(** After the initial page the name [results] is bound to that page. *)
Lemma initial_page_binds (statuses : list Tweet) (w w1 : World) (l1 : Query.Locals) (ev1 : list Event) :
  Query.initial_page consume statuses w = (Return (Query.Next l1), w1, ev1) ->
  statuses <> [] /\
  l1 = Query.mkLocals (Query.len statuses)
         (Some (Query.id_at statuses (Query.len statuses - 1) - 1)) 0
         (Some statuses).
Proof.
  unfold Query.initial_page. destruct statuses as [|t statuses].
  - cbn. discriminate.
  - rewrite len_pos. unfold bind.
    destruct (Query.yield_each consume (t :: statuses) w)
      as [[[[|]|e] w2] ev2]; cbn; intros E; inversion E; subst.
    split; [discriminate|reflexivity].
Qed.


End Pagination.



(** ** The pagination cursor *)

Lemma keeps_bind {A B : Type} (m : M A) (f : A -> M B) :
  keeps_max_id m -> (forall a, keeps_max_id (f a)) -> keeps_max_id (bind m f).
Proof.
  intros Hm Hf w h Hh. unfold bind.
  destruct (Hm w h Hh) as [h1 [Hh1 Hm1]].
  destruct (m w) as [[[a|e] w1] ev1]; cbn [world fst snd] in *.
  - destruct (Hf a w1 h1 Hh1) as [h2 [Hh2 Hm2]].
    destruct (f a w1) as [[r w2] ev2]; cbn [world fst snd] in *.
    exists h2. split; [exact Hh2|congruence].
  - exists h1. auto.
Qed.

Lemma keeps_ret {A : Type} (a : A) : keeps_max_id (ret a).
Proof. intros w h Hh. exists h. auto. Qed.

Lemma keeps_emit (e : Event) : keeps_max_id (emit e).
Proof. intros w h Hh. exists h. auto. Qed.

Lemma keeps_counter_incr : keeps_max_id handler_counter_incr.
Proof.
  intros w h Hh. rewrite (counter_incr_eq w h Hh). eexists.
  split; reflexivity.
Qed.

Lemma keeps_handle (data : Tweet) : keeps_max_id (handler_handle data).
Proof.
  intros w h Hh. open_world w h Hh. run.
  destruct hcls; cbn.
  - eexists; split; reflexivity.
  - destruct (t_text data); cbn; eexists; split; reflexivity.
  - destruct hstart, hout as [[nm [|]]|], hdate as [d|],
      (t_created_at data) as [td|], hstream; cbn;
      try (destruct (td >? d)); try (destruct (td <? d)); cbn;
      eexists; (split; [reflexivity|]); reflexivity.
Qed.

Lemma keeps_do_continue : keeps_max_id handler_do_continue.
Proof.
  intros w h Hh. open_world w h Hh. run.
  destruct hcls; cbn; try (eexists; split; reflexivity).
  destruct hrepeat, hstop; cbn; try (eexists; split; reflexivity).
  destruct (hcounter =? hlimit); cbn; try (eexists; split; reflexivity).
  destruct hout as [[nm [|]]|]; cbn;
    (destruct (String.eqb hsubdir ""); cbn;
     [|destruct (existsb (String.eqb hsubdir) wdirs); cbn]);
    eexists; split; reflexivity.
Qed.

Lemma keeps_yield_each (consume : Tweet -> M unit) (statuses : list Tweet) :
  (forall t, keeps_max_id (consume t)) ->
  keeps_max_id (Query.yield_each consume statuses).
Proof.
  intros Hc. induction statuses as [|t statuses IH]; cbn [Query.yield_each].
  - apply keeps_ret.
  - apply keeps_bind; [apply keeps_emit|intros _].
    apply keeps_bind; [apply Hc|intros _].
    apply keeps_bind; [apply keeps_counter_incr|intros _].
    apply keeps_bind; [apply keeps_do_continue|intros b].
    destruct (Bool.eqb b false); [apply keeps_ret|exact IH].
Qed.

Lemma id_at_last (statuses : list Tweet) :
  statuses <> [] ->
  Query.id_at statuses (Query.len statuses - 1) = last_id statuses.
Proof.
  intros Hne. unfold Query.id_at, last_id, Query.len.
  replace (Z.to_nat (Z.of_nat (List.length statuses) - 1))
    with (Nat.pred (List.length statuses)) by lia.
  f_equal. clear Hne.
  induction statuses as [|t [|t2 statuses] IH]; try reflexivity.
  exact IH.
Qed.

Lemma descending_last_le (t : Tweet) (statuses : list Tweet) :
  descending (map t_id (t :: statuses)) ->
  last_id (t :: statuses) <= t_id t.
Proof.
  revert t. induction statuses as [|t2 statuses IH]; intros t Hd.
  - unfold last_id. cbn [List.last]. lia.
  - destruct Hd as [Hlt Hd]. specialize (IH t2 Hd).
    change (last_id (t :: t2 :: statuses)) with (last_id (t2 :: statuses)).
    lia.
Qed.

Lemma descending_min_is_last (statuses : list Tweet) :
  statuses <> [] -> descending (map t_id statuses) ->
  min_id statuses = Some (last_id statuses).
Proof.
  induction statuses as [|t statuses IH]; intros Hne Hd; [congruence|].
  destruct statuses as [|t2 statuses]; [reflexivity|].
  pose proof (descending_last_le t (t2 :: statuses) Hd) as Hle.
  destruct Hd as [Hlt Hd].
  cbn [min_id] in *. rewrite (IH ltac:(discriminate) Hd).
  change (last_id (t :: t2 :: statuses)) with (last_id (t2 :: statuses)) in *.
  f_equal. lia.
Qed.

Lemma process_results_cursor (consume : Tweet -> M unit) (l : Query.Locals)
    (statuses : list Tweet) (w : World) (h : Handler) :
  (forall t, keeps_max_id (consume t)) ->
  handler w = Some h -> Query.results l = Some statuses -> statuses <> [] ->
  let r := Query.process_results consume l w in
  (exists h', handler (world r) = Some h' /\
              max_id h' = Some (last_id statuses - 1)) /\
  (forall l', result r = Return (Query.Next l') ->
     Query.local_max_id l' = Some (last_id statuses - 1) /\
     Query.count_from_query l' =
       Query.count_from_query l + Query.len statuses).
Proof.
  intros Hc Hh Hres Hne r. subst r.
  unfold Query.process_results. rewrite Hres.
  destruct statuses as [|t statuses']; [congruence|].
  rewrite len_pos, (id_at_last (t :: statuses') Hne).
  rewrite (bind_eq _ _ _ _ _ _ (update_handler_eq _ w h Hh)).
  set (h1 := set_max_id (Some (last_id (t :: statuses') - 1)) h).
  set (w1 := with_handler (Some h1) w).
  cbn [result world events fst snd].
  split.
  - assert (K : keeps_max_id
                  (returned <- Query.yield_each consume (t :: statuses') ;;
                   if returned then ret Query.Stop
                   else ret (Query.Next
                     (Query.mkLocals
                        (Query.count_from_query l + Query.len (t :: statuses'))
                        (Some (last_id (t :: statuses') - 1))
                        (Query.retries l) (Some (t :: statuses')))))).
    { apply keeps_bind; [apply keeps_yield_each, Hc|].
      intros [|]; apply keeps_ret. }
    destruct (K w1 h1 eq_refl) as [h' [Hh' Hm]].
    exists h'. split; [exact Hh'|exact Hm].
  - intros l'. unfold bind.
    destruct (Query.yield_each consume (t :: statuses') w1)
      as [[[[|]|e] w2] ev2]; cbn; intros E; inversion E; subst.
    split; reflexivity.
Qed.

Lemma writer_init_max_id (limit : Z) (date_limit : option Z) (stream : bool)
    (fprefix subdir : string) (repeat gzip_compress : bool) (w : World) :
  exists h0,
    handler (world (TweetWriter.__init__ limit date_limit stream fprefix
                      subdir repeat gzip_compress w)) = Some h0 /\
    max_id h0 = None /\ cls h0 = TweetWriter.
Proof.
  unfold TweetWriter.__init__, TweetHandlerI.__init__.
  destruct w as [wh wflag wconn wclock wdirs]. run.
  destruct (String.eqb subdir ""); cbn;
    [|destruct (existsb (String.eqb subdir) wdirs); cbn];
    eexists; repeat split; reflexivity.
Qed.

(** C2, amended.  After a non-empty page the new cursor is the id of the
    last record of the page minus one, for a pagination page and for the
    initial page alike; for a pagination page it is also stored on the
    handler (and stays there while the page is yielded, for any consumer
    that leaves it alone).  It is the minimum id of the page minus one
    when the ids of the page are in descending order, and it is strictly
    below the previous cursor when the last id is not above that cursor.
    A newly constructed [TweetWriter] has no cursor. *)
Theorem cursor_after_page (consume : Tweet -> M unit) (n : Z)
    (l : Query.Locals) (statuses : list Tweet) (w : World) (h : Handler)
    (Hconsume : forall t, keeps_max_id (consume t))
    (Hh : handler w = Some h) (Hne : statuses <> []) :
  let cursor := Some (last_id statuses - 1) in
  (let r := Query.iteration consume n (Query.Statuses statuses) l w in
   (exists h', handler (world r) = Some h' /\ max_id h' = cursor) /\
   (forall l', result r = Return (Query.Next l') ->
      Query.local_max_id l' = cursor /\
      Query.count_from_query l' =
        Query.count_from_query l + Query.len statuses)) /\
  (forall l',
     result (Query.initial_page consume statuses w) = Return (Query.Next l') ->
     Query.local_max_id l' = cursor) /\
  (descending (map t_id statuses) -> min_id statuses = Some (last_id statuses)) /\
  (forall m, Query.local_max_id l = Some m -> last_id statuses <= m ->
     last_id statuses - 1 < m) /\
  (forall limit date_limit stream fprefix subdir repeat gzip_compress w0,
     exists h0,
       handler (world (TweetWriter.__init__ limit date_limit stream fprefix
                         subdir repeat gzip_compress w0)) = Some h0 /\
       max_id h0 = None /\ cls h0 = TweetWriter).
Proof.
  intros cursor. subst cursor.
  split; [|split; [|split; [|split]]].
  - cbn [Query.iteration].
    apply (process_results_cursor consume
             (Query.mkLocals (Query.count_from_query l) (Query.local_max_id l)
                (Query.retries l) (Some statuses)) statuses w h);
      auto.
  - intros l' E.
    destruct (Query.initial_page consume statuses w) as [[r w1] ev1] eqn:Hip.
    cbn [result fst] in E. subst r.
    destruct (initial_page_binds consume statuses w w1 l' ev1 Hip) as [_ ->].
    cbn [Query.local_max_id]. rewrite (id_at_last statuses Hne). reflexivity.
  - apply descending_min_is_last, Hne.
  - intros m _ Hle. lia.
  - intros. apply writer_init_max_id.
Qed.

Lemma cursor_after_page_witness :
  let w := ex_world (ex_writer 10 None false false) in
  let r := Query.iteration handler_handle 0
             (Query.Statuses [ex_tweet 99; ex_tweet 98])
             (Query.mkLocals 5 (Some 100) 0 None) w in
  exists h', handler (world r) = Some h' /\ max_id h' = Some 97.
Proof.
  intros w r.
  exact (proj1 (proj1 (cursor_after_page handler_handle 0
                         (Query.mkLocals 5 (Some 100) 0 None)
                         [ex_tweet 99; ex_tweet 98] w
                         (ex_writer 10 None false false)
                         keeps_handle eq_refl ltac:(discriminate)))).
Defined.

(** C2 does not hold as stated.  The cursor of the initial page (here
    100, as the next request shows) is not stored on the handler.  And on a
    page that is not in descending order the cursor is not the minimum id
    minus one. *)
Lemma cursor_of_initial_page_not_stored :
  (let r :=
     Query.search_tweets handler_handle 10 None 0
       [Query.Statuses (map ex_tweet [105; 104; 103; 102; 101]);
        Query.Statuses []]
       (ex_world (ex_writer 10 None false false)) in
   status_of r = Finished /\
   List.filter is_request (events_of r) =
     [SearchRequest 10 None; SearchRequest 5 (Some 100)] /\
   exists h, handler (world_of r) = Some h /\ max_id h = None) /\
  (let page := [ex_tweet 3; ex_tweet 5] in
   let r := Query.iteration handler_handle 0 (Query.Statuses page)
              (Query.mkLocals 0 (Some 9) 0 None)
              (ex_world (ex_writer 10 None false false)) in
   min_id page = Some 3 /\
   exists h, handler (world r) = Some h /\ max_id h = Some 4).
Proof.
  split.
  - vm_compute. split; [reflexivity|]. split; [reflexivity|].
    eexists. split; reflexivity.
  - vm_compute. split; [reflexivity|]. eexists. split; reflexivity.
Qed.

(** ** The search dispatch loop *)

Lemma search_tweets_loop_eq (fuel : nat) (limit : Z)
    (script : list Query.Response) (w : World) :
  Query._search_tweets (S fuel) limit script w =
    (let tweets :=
       Query.search_tweets handler_handle limit (Query.cursor_of w) 0 script w in
     match status_of tweets with
     | Finished =>
         match Query.goes_on (world_of tweets) with
         | (Return true, w', ev) =>
             prepend (events_of tweets ++ ev)
               (Query._search_tweets fuel limit (rest_of tweets) w')
         | (Return false, w', ev) =>
             Query.finish (events_of tweets ++ ev) (rest_of tweets) w'
         | (Raise e, w', ev) =>
             mkRun (Failed e) w' (events_of tweets ++ ev) (rest_of tweets)
         end
     | _ => tweets
     end).
Proof. reflexivity. Qed.

(** Whatever the generator goes on to do, it starts with a request; the
    request carries the cursor it was called with, if that is a cursor. *)
Lemma search_first_request (consume : Tweet -> M unit) (limit : Z)
    (max_id : option Z) (n : Z) (script : list Query.Response) (w : World) :
  0 < limit ->
  exists more,
    events_of (Query.search_tweets consume limit max_id n script w) =
      SearchRequest (Z.min 100 limit)
        (if Query.truthy max_id then max_id else None) :: more.
Proof.
  intros Hlimit. unfold Query.search_tweets. cbv zeta.
  set (w0 := match handler w with
             | None => with_handler (Some (Query.default_handler limit)) w
             | Some _ => w
             end).
  destruct (Query.truthy max_id); cbn [negb].
  - destruct script as [|answer rest].
    + cbn [Query.pagination Query.count_from_query Query.local_max_id].
      replace (0 <? limit) with true by (symmetry; apply Z.ltb_lt; exact Hlimit).
      rewrite Z.sub_0_r. eexists. reflexivity.
    + destruct (pagination_events consume limit n answer rest
                  (Query.mkLocals 0 max_id 0 None) w0 Hlimit) as [more E].
      rewrite E. cbn [Query.count_from_query Query.local_max_id].
      rewrite Z.sub_0_r. eexists. reflexivity.
  - destruct script as [|[statuses| |] rest]; try (eexists; reflexivity).
    destruct (Query.initial_page consume statuses w0) as [[[[l'|]|e] w1] ev1];
      eexists; reflexivity.
Qed.

Lemma cursor_of_writer (w : World) (h : Handler) :
  handler w = Some h -> cls h = TweetWriter -> Query.cursor_of w = max_id h.
Proof. intros Hh Hc. unfold Query.cursor_of. rewrite Hh, Hc. reflexivity. Qed.

Lemma loop_first_request (fuel : nat) (limit : Z)
    (script : list Query.Response) (w : World) (h : Handler) :
  0 < limit -> handler w = Some h -> cls h = TweetWriter ->
  exists more,
    events_of (Query._search_tweets (S fuel) limit script w) =
      SearchRequest (Z.min 100 limit)
        (if Query.truthy (max_id h) then max_id h else None) :: more.
Proof.
  intros Hlimit Hh Hc. rewrite search_tweets_loop_eq. cbv zeta.
  rewrite (cursor_of_writer w h Hh Hc).
  destruct (search_first_request handler_handle limit (max_id h) 0 script w
              Hlimit) as [more E].
  set (tweets := Query.search_tweets handler_handle limit (max_id h) 0 script w)
    in *.
  destruct (status_of tweets); try (eexists; exact E).
  destruct (Query.goes_on (world_of tweets)) as [[[[|]|e] w'] ev].
  - unfold prepend. cbn [events_of]. rewrite E. eexists. reflexivity.
  - unfold Query.finish.
    destruct (handler_on_finish w') as [[[u|e] w2] ev2]; cbn [events_of];
      rewrite E; eexists; reflexivity.
  - cbn [events_of]. rewrite E. eexists. reflexivity.
Qed.

Lemma do_continue_returns (w w1 : World) (b : bool) (ev : list Event) :
  handler_do_continue w = (Return b, w1, ev) ->
  exists h1, handler w1 = Some h1.
Proof.
  intros E. destruct (handler w) as [h|] eqn:Hh.
  - destruct (keeps_do_continue w h Hh) as [h1 [Hh1 _]].
    rewrite E in Hh1. exists h1. exact Hh1.
  - unfold handler_do_continue, bind, self_handler in E. rewrite Hh in E.
    discriminate.
Qed.

Lemma goes_on_returns (w w1 : World) (b : bool) (ev : list Event) :
  Query.goes_on w = (Return b, w1, ev) ->
  exists h1, handler w1 = Some h1 /\
    (b = true -> cls h1 = TweetWriter /\ repeat h1 = true).
Proof.
  unfold Query.goes_on, bind.
  destruct (handler_do_continue w) as [[[b0|e] w2] ev2] eqn:E; [|discriminate].
  destruct (do_continue_returns w w2 b0 ev2 E) as [h2 Hh2].
  destruct b0.
  - unfold Query.handler_repeat, bind, self_handler. rewrite Hh2.
    destruct (cls h2) eqn:Hc; cbn; intros E2; inversion E2; subst.
    exists h2. auto.
  - cbn. intros E2. inversion E2; subst. exists h2. split; [exact Hh2|].
    discriminate.
Qed.

Lemma on_finish_once (w : World) (h : Handler) :
  handler w = Some h ->
  result (handler_on_finish w) = Return tt /\
  (cls h <> BasicTweetHandler ->
   count is_written (events (handler_on_finish w)) = 1).
Proof.
  intros Hh. open_world w h Hh. run.
  destruct hcls; cbn; try (split; [reflexivity|intros; congruence || reflexivity]).
  destruct hout as [[nm [|]]|]; cbn; split; reflexivity.
Qed.

(** C3, amended.  One round of the dispatch loop: the generator is called
    with the cursor kept on the handler and runs to its end.  If the
    continuation predicate is then true and the handler's repeat flag set
    (so the handler is a [TweetWriter]), the generator is called again and
    its first request carries the cursor stored on the handler, when one
    is stored; it is a request without a cursor only when none is.
    Otherwise the loop stops: [on_finish()] is called, once, and the
    method returns. *)
Theorem dispatch_loop_round (fuel : nat) (limit : Z)
    (script : list Query.Response) (w w1 : World) (b : bool)
    (ev1 : list Event)
    (Hlimit : 0 < limit)
    (Hgen : status_of (Query.search_tweets handler_handle limit
                         (Query.cursor_of w) 0 script w) = Finished)
    (Hgo : Query.goes_on
             (world_of (Query.search_tweets handler_handle limit
                          (Query.cursor_of w) 0 script w))
           = (Return b, w1, ev1)) :
  let tweets :=
    Query.search_tweets handler_handle limit (Query.cursor_of w) 0 script w in
  exists h1, handler w1 = Some h1 /\
  (b = true ->
   cls h1 = TweetWriter /\ repeat h1 = true /\
   exists more,
     events_of (Query._search_tweets (S (S fuel)) limit script w) =
       events_of tweets ++ ev1 ++
       SearchRequest (Z.min 100 limit)
         (if Query.truthy (max_id h1) then max_id h1 else None) :: more) /\
  (b = false ->
   let r := Query._search_tweets (S fuel) limit script w in
   status_of r = Finished /\
   events_of r = events_of tweets ++ ev1 ++ events (handler_on_finish w1) /\
   (cls h1 <> BasicTweetHandler ->
    count is_written (events (handler_on_finish w1)) = 1)).
Proof.
  intros tweets. subst tweets.
  set (tweets := Query.search_tweets handler_handle limit (Query.cursor_of w)
                   0 script w) in *.
  destruct (goes_on_returns _ _ _ _ Hgo) as [h1 [Hh1 Hb]].
  exists h1. split; [exact Hh1|]. split.
  - intros ->. destruct (Hb eq_refl) as [Hc Hr].
    split; [exact Hc|]. split; [exact Hr|].
    rewrite search_tweets_loop_eq. cbv zeta. fold tweets.
    rewrite Hgen, Hgo.
    destruct (loop_first_request fuel limit (rest_of tweets) w1 h1 Hlimit Hh1 Hc)
      as [more E].
    unfold prepend. cbn [events_of]. rewrite E.
    exists more. rewrite <- app_assoc. reflexivity.
  - intros ->. cbv zeta.
    rewrite search_tweets_loop_eq. cbv zeta. fold tweets.
    rewrite Hgen, Hgo.
    destruct (on_finish_once w1 h1 Hh1) as [Hret Hcount].
    unfold Query.finish.
    destruct (handler_on_finish w1) as [[[u|e] w2] ev2];
      cbn [result fst] in Hret; [|discriminate].
    cbn [status_of events_of events snd] in *.
    split; [reflexivity|]. split; [|exact Hcount].
    rewrite <- app_assoc. reflexivity.
Qed.

Lemma dispatch_loop_round_witness :
  let w := ex_world (ex_writer 3 None false true) in
  let script := [Query.Statuses [ex_tweet 10]; Query.Statuses [ex_tweet 8];
                 Query.Statuses []; Query.Statuses []] in
  let tweets := Query.search_tweets handler_handle 3 (Query.cursor_of w) 0
                  script w in
  exists h1, handler (world (Query.goes_on (world_of tweets))) = Some h1 /\
             cls h1 = TweetWriter /\ repeat h1 = true.
Proof.
  intros w script tweets.
  destruct (dispatch_loop_round 0 3 script w
              (world (Query.goes_on (world_of tweets))) true
              (events (Query.goes_on (world_of tweets)))
              eq_refl eq_refl eq_refl) as [h1 [Hh1 [Htrue _]]].
  exists h1. split; [exact Hh1|].
  destruct (Htrue eq_refl) as [Hc [Hr _]]. split; [exact Hc|exact Hr].
Defined.

(** C3 does not hold as stated.  The first call of the generator stores
    the cursor 7 on the writer; the call made by the repeat resumes from
    that cursor. *)
Lemma repeated_search_resumes_from_cursor :
  let r := Query._search_tweets 5 3
             [Query.Statuses [ex_tweet 10]; Query.Statuses [ex_tweet 8];
              Query.Statuses []]
             (ex_world (ex_writer 3 None false true)) in
  status_of r = Waiting /\
  List.filter is_request (events_of r) =
    [SearchRequest 3 None; SearchRequest 2 (Some 9); SearchRequest 1 (Some 7);
     SearchRequest 3 (Some 7)].
Proof. vm_compute. split; reflexivity. Qed.

(** ** Retries *)

(** C1, where the code departs from it.  Two parts of the statement hold:
    the transport error is raised exactly when the count of earlier errors
    has reached [retries_after_twython_exception], and a rate-limit error
    leaves that count alone.  But the failed request is not retried.  With
    one retry allowed, an error after a page of one record makes the
    generator yield that record again and end, the answer a retry would
    have received never asked for; and in a call with a cursor an error at
    the first request ends the generator with [UnboundLocalError]. *)
Theorem retry_reuses_stale_results :
  (forall consume l w,
     Query.iteration consume (Query.retries l) Query.RaisesTwythonError l w
     = (Raise TwythonError, w, [Printed MsgFatal])) /\
  (forall consume n l w,
     result (Query.iteration consume n Query.RaisesTwythonRateLimitError l w)
     = Return (Query.Next l)) /\
  (let r :=
     Query.search_tweets just_iterate 2 None 1
       [Query.Statuses [ex_tweet 5]; Query.RaisesTwythonError;
        Query.Statuses [ex_tweet 4]] ex_bare in
   status_of r = Finished /\
   events_of r =
     [SearchRequest 2 None; Yielded (ex_tweet 5);
      SearchRequest 1 (Some 4); Printed MsgFatal; Yielded (ex_tweet 5)] /\
   rest_of r = [Query.Statuses [ex_tweet 4]]) /\
  (let r :=
     Query.search_tweets just_iterate 2 (Some 10) 1
       [Query.RaisesTwythonError; Query.Statuses [ex_tweet 9]] ex_bare in
   status_of r = Failed (UnboundLocalError "results") /\
   events_of r = [SearchRequest 2 (Some 10); Printed MsgFatal] /\
   rest_of r = [Query.Statuses [ex_tweet 9]]).
Proof.
  split; [|split; [|split]].
  - intros consume l w. unfold Query.iteration.
    rewrite Z.eqb_refl. reflexivity.
  - intros consume n l w. reflexivity.
  - vm_compute. repeat split; reflexivity.
  - vm_compute. repeat split; reflexivity.
Qed.

Ltac exn_ok := first [exact I | reflexivity].

(** ** What the handlers leave alone *)

Lemma emits_bind {A B : Type} (P : Event -> Prop) (m : M A) (f : A -> M B) :
  emits P m -> (forall a, emits P (f a)) -> emits P (bind m f).
Proof.
  intros Hm Hf w. unfold bind. specialize (Hm w).
  destruct (m w) as [[[a|e] w1] ev1]; cbn [events snd] in *; [|exact Hm].
  specialize (Hf a w1). destruct (f a w1) as [[r w2] ev2].
  cbn [events snd] in *. apply Forall_app. split; assumption.
Qed.

Lemma emits_ret {A : Type} (P : Event -> Prop) (a : A) : emits P (ret a).
Proof. intros w. constructor. Qed.

Lemma emits_raise {A : Type} (P : Event -> Prop) (e : exn) :
  emits P (@raise A e).
Proof. intros w. constructor. Qed.

Lemma emits_modify (P : Event -> Prop) (f : World -> World) :
  emits P (modify f).
Proof. intros w. constructor. Qed.

Lemma emits_emit (P : Event -> Prop) (e : Event) : P e -> emits P (emit e).
Proof. intros H w. constructor; [exact H|constructor]. Qed.

Lemma emits_weaken {A : Type} (P Q : Event -> Prop) (m : M A) :
  (forall e, P e -> Q e) -> emits P m -> emits Q m.
Proof.
  intros H Hm w. eapply Forall_impl; [exact H|apply Hm].
Qed.

Lemma raises_bind {A B : Type} (P : exn -> Prop) (m : M A) (f : A -> M B) :
  raises P m -> (forall a, raises P (f a)) -> raises P (bind m f).
Proof.
  intros Hm Hf w e. unfold bind. specialize (Hm w).
  destruct (m w) as [[[a|e1] w1] ev1]; cbn [result fst] in *.
  - specialize (Hf a w1 e). destruct (f a w1) as [[r w2] ev2].
    cbn [result fst] in *. exact Hf.
  - intros E. inversion E; subst. apply Hm. reflexivity.
Qed.

Lemma keeps_flags_bind {A B : Type} (m : M A) (f : A -> M B) :
  keeps_flags m -> (forall a, keeps_flags (f a)) -> keeps_flags (bind m f).
Proof.
  intros Hm Hf w. unfold bind. specialize (Hm w).
  destruct (m w) as [[[a|e1] w1] ev1]; cbn [world fst snd] in *; [|exact Hm].
  specialize (Hf a w1). destruct (f a w1) as [[r w2] ev2].
  cbn [world fst snd] in *. destruct Hm, Hf. split; congruence.
Qed.

(** Whatever a handler is asked to do, it prints, makes a directory or
    works on its file; it raises a [KeyError], an [AttributeError] or a
    [ValueError] if anything; and it does not touch the engine's flags. *)
Lemma handler_counter_incr_frame :
  emits handler_event handler_counter_incr /\
  raises handler_exn handler_counter_incr /\
  keeps_flags handler_counter_incr.
Proof.
  split; [|split]; intros [[h|] wflag wconn wclock wdirs]; run;
    try constructor; try (intros e E; inversion E; exn_ok); auto.
Qed.

Lemma handler_handle_frame (data : Tweet) :
  emits handler_event (handler_handle data) /\
  raises handler_exn (handler_handle data) /\
  keeps_flags (handler_handle data).
Proof.
  assert (H : forall w,
    Forall handler_event (events (handler_handle data w)) /\
    (forall e, result (handler_handle data w) = Raise e -> handler_exn e) /\
    do_continue (world (handler_handle data w)) = do_continue w /\
    connected (world (handler_handle data w)) = connected w).
  { intros [[h|] wflag wconn wclock wdirs].
    - destruct h as [hcls hlimit hcounter hstop hdate hstart hprefix hsubdir
                     hgz hfname hstream hrepeat hmax hout].
      run. destruct hcls; cbn.
      + repeat split; try constructor. intros e E. inversion E.
      + destruct (t_text data); cbn; repeat split;
          repeat (constructor; cbn; auto);
          intros e E; inversion E; exn_ok.
      + destruct hstart, hout as [[nm [|]]|], hdate as [d|],
          (t_created_at data) as [td|], hstream; cbn;
          try (destruct (td >? d)); try (destruct (td <? d)); cbn;
          repeat split; repeat (constructor; cbn; auto);
          intros e E; inversion E; exn_ok.
    - run. repeat split; try constructor. intros e E. inversion E. exn_ok. }
  split; [|split].
  - intros w. apply H.
  - intros w. apply H.
  - intros w. split; apply H.
Qed.

Lemma handler_do_continue_frame :
  emits handler_event handler_do_continue /\
  raises handler_exn handler_do_continue /\
  keeps_flags handler_do_continue.
Proof.
  assert (H : forall w,
    Forall handler_event (events (handler_do_continue w)) /\
    (forall e, result (handler_do_continue w) = Raise e -> handler_exn e) /\
    do_continue (world (handler_do_continue w)) = do_continue w /\
    connected (world (handler_do_continue w)) = connected w).
  { intros [[h|] wflag wconn wclock wdirs].
    - destruct h as [hcls hlimit hcounter hstop hdate hstart hprefix hsubdir
                     hgz hfname hstream hrepeat hmax hout].
      run. destruct hcls; cbn;
        try (repeat split; try constructor; intros e E; inversion E).
      destruct hrepeat, hstop; cbn;
        try (repeat split; try constructor; intros e E; inversion E).
      destruct (hcounter =? hlimit); cbn;
        try (repeat split; try constructor; intros e E; inversion E).
      destruct hout as [[nm [|]]|]; cbn;
        (destruct (String.eqb hsubdir ""); cbn;
         [|destruct (existsb (String.eqb hsubdir) wdirs); cbn]);
        repeat split; repeat (constructor; cbn; auto);
        intros e E; inversion E.
    - run. repeat split; try constructor. intros e E. inversion E. exn_ok. }
  split; [|split].
  - intros w. apply H.
  - intros w. apply H.
  - intros w. split; apply H.
Qed.

Lemma handler_on_finish_frame :
  emits handler_event handler_on_finish /\
  raises handler_exn handler_on_finish /\
  keeps_flags handler_on_finish.
Proof.
  assert (H : forall w,
    Forall handler_event (events (handler_on_finish w)) /\
    (forall e, result (handler_on_finish w) = Raise e -> handler_exn e) /\
    do_continue (world (handler_on_finish w)) = do_continue w /\
    connected (world (handler_on_finish w)) = connected w).
  { intros [[h|] wflag wconn wclock wdirs].
    - destruct h as [hcls hlimit hcounter hstop hdate hstart hprefix hsubdir
                     hgz hfname hstream hrepeat hmax hout].
      run. destruct hcls; cbn;
        try (repeat split; repeat (constructor; cbn; auto);
             intros e E; inversion E).
      destruct hout as [[nm [|]]|]; cbn;
        repeat split; repeat (constructor; cbn; auto);
        intros e E; inversion E.
    - run. repeat split; try constructor. intros e E. inversion E. exn_ok. }
  split; [|split].
  - intros w. apply H.
  - intros w. apply H.
  - intros w. split; apply H.
Qed.

(** ** Looking up Tweets by id *)

Section Chunks.

Variable A : Type.
Variable c : nat.
Hypothesis c_pos : (0 < c)%nat.

Lemma slices_succ (m : nat) (l : list A) :
  slices c (S m) l = firstn c l :: slices c m (skipn c l).
Proof.
  unfold slices. cbn [seq map]. rewrite Nat.mul_0_r. cbn [skipn].
  f_equal. rewrite <- seq_shift, !map_map.
  apply map_ext. intros k. rewrite skipn_skipn. f_equal. f_equal. lia.
Qed.

Lemma slices_concat (m : nat) :
  forall l : list A,
  (List.length l <= c * m)%nat -> List.concat (slices c m l) = l.
Proof.
  induction m as [|m IH]; intros l Hlen.
  - destruct l; [reflexivity|cbn in Hlen; lia].
  - rewrite slices_succ. cbn [List.concat]. rewrite IH.
    + apply firstn_skipn.
    + rewrite length_skipn. lia.
Qed.

Lemma slices_sizes (m : nat) :
  forall l : list A, (c * m < List.length l + c)%nat ->
  Forall (fun s => (1 <= List.length s <= c)%nat) (slices c m l) /\
  (forall k, (S k < m)%nat -> List.length (nth k (slices c m l) []) = c).
Proof.
  induction m as [|m IH]; intros l Hlen.
  - split; [constructor|intros k Hk; lia].
  - rewrite slices_succ. rewrite Nat.mul_succ_r in Hlen.
    destruct (IH (skipn c l)) as [H1 H2].
    { rewrite length_skipn. lia. }
    split.
    + constructor; [|exact H1]. rewrite length_firstn.
      destruct (Nat.min_spec c (List.length l)) as [[? ->]|[? ->]]; lia.
    + intros [|k] Hk; cbn [nth].
      * rewrite length_firstn.
        assert (c * 1 <= c * m)%nat by (apply Nat.mul_le_mono_l; lia).
        destruct (Nat.min_spec c (List.length l)) as [[? ->]|[? ->]]; lia.
      * apply H2. lia.
Qed.

End Chunks.

Lemma id_chunks_slices (ids : list string) :
  Ids.id_chunks ids = slices 100 ((List.length ids + 99) / 100) ids.
Proof. reflexivity. Qed.

Lemma id_chunks_cover (ids : list string) :
  List.concat (Ids.id_chunks ids) = ids /\
  Forall (fun chunk => (1 <= List.length chunk <= 100)%nat)
    (Ids.id_chunks ids).
Proof.
  rewrite id_chunks_slices.
  set (n := List.length ids). set (m := ((n + 99) / 100)%nat).
  assert (Hm : (n <= 100 * m /\ 100 * m < n + 100)%nat).
  { unfold m. pose proof (Nat.div_mod_eq (n + 99) 100) as E.
    pose proof (Nat.mod_upper_bound (n + 99) 100 ltac:(lia)). lia. }
  split; [apply slices_concat; fold n; lia|].
  apply (slices_sizes string 100 ltac:(lia) m ids). fold n. lia.
Qed.

(** X1.  The chunks [expand_tweetids] cuts the ids into are a partition of
    the ids in their order: put together they give the ids back; there are
    ceil(n / 100) of them for n ids; each holds at least one id and at most
    100 (the most the lookup endpoint takes); and every chunk but the last
    holds exactly 100. *)
Theorem id_chunks_partition (ids : list string) :
  List.concat (Ids.id_chunks ids) = ids /\
  List.length (Ids.id_chunks ids) = ((List.length ids + 99) / 100)%nat /\
  Forall (fun chunk => (1 <= List.length chunk <= 100)%nat)
    (Ids.id_chunks ids) /\
  (forall k, (S k < List.length (Ids.id_chunks ids))%nat ->
     List.length (nth k (Ids.id_chunks ids) []) = 100%nat).
Proof.
  destruct (id_chunks_cover ids) as [C1 C2].
  split; [exact C1|]. rewrite id_chunks_slices in *.
  set (n := List.length ids). set (m := ((n + 99) / 100)%nat).
  assert (Hm : (100 * m < n + 100)%nat).
  { unfold m. pose proof (Nat.div_mod_eq (n + 99) 100) as E.
    pose proof (Nat.mod_upper_bound (n + 99) 100 ltac:(lia)). lia. }
  assert (Hlen : List.length (slices 100 m ids) = m).
  { unfold slices. rewrite !length_map, length_seq. reflexivity. }
  split; [exact Hlen|]. split; [exact C2|].
  intros k Hk.
  apply (slices_sizes string 100 ltac:(lia) m ids ltac:(fold n; lia)).
  rewrite Hlen in Hk. exact Hk.
Qed.

Lemma id_chunks_partition_witness :
  List.length (nth 0 (Ids.id_chunks (List.repeat "20" 150)) []) = 100%nat.
Proof.
  apply (proj2 (proj2 (proj2 (id_chunks_partition (List.repeat "20" 150))))).
  vm_compute. lia.
Defined.

Lemma lookups_app (a b : list Ids.IdEvent) :
  lookups (a ++ b) = lookups a ++ lookups b.
Proof.
  induction a as [|[n|chunk|t] a IH]; cbn [app lookups]; rewrite ?IH;
    reflexivity.
Qed.

Lemma fetched_app (a b : list Ids.IdEvent) :
  fetched (a ++ b) = fetched a ++ fetched b.
Proof.
  induction a as [|[n|chunk|t] a IH]; cbn [app fetched]; rewrite ?IH;
    reflexivity.
Qed.

Lemma lookups_fetched (tweets : list Tweet) :
  lookups (map Ids.Fetched tweets) = [] /\
  fetched (map Ids.Fetched tweets) = tweets.
Proof.
  induction tweets as [|t tweets [IH1 IH2]]; [split; reflexivity|].
  cbn [map lookups fetched]. rewrite IH1, IH2. split; reflexivity.
Qed.

Lemma chain_lookups (chunks : list (list string)) :
  forall answers : list Ids.Answer,
  let '(st, ev, rest) := Ids.chain chunks answers in
  lookups ev = firstn (List.length (lookups ev)) chunks /\
  (st = Finished -> lookups ev = chunks) /\
  (st <> Finished -> lookups ev <> []) /\
  fetched ev = found (firstn (List.length (lookups ev)) answers).
Proof.
  induction chunks as [|chunk chunks IH]; intros answers.
  - cbn. repeat split; auto; try congruence.
  - destruct answers as [|[tweets|] answers].
    + cbn. repeat split; auto; discriminate.
    + cbn [Ids.chain]. specialize (IH answers).
      destruct (Ids.chain chunks answers) as [[st ev] rest].
      destruct IH as [H1 [H2 [H3 H4]]].
      destruct (lookups_fetched tweets) as [L1 L2].
      cbn [lookups fetched]. rewrite lookups_app, fetched_app, L1, L2.
      cbn [app List.length firstn found].
      split; [f_equal; exact H1|].
      split; [intros H; f_equal; apply H2, H|].
      split; [discriminate|].
      f_equal. exact H4.
    + cbn. repeat split; auto; discriminate.
Qed.

Lemma Forall_firstn {A : Type} (P : A -> Prop) (n : nat) (l : list A) :
  Forall P l -> Forall P (firstn n l).
Proof.
  revert n. induction l as [|a l IH]; intros [|n] H; cbn [firstn];
    try constructor; inversion H; subst; auto.
Qed.

(** X2.  What [expand_tweetids] sends out.  The lookups are the chunks of
    the ids read from the file, in order and from the first one, as far as
    the iterable got: each asks for between 1 and 100 ids, never for none.
    When the iterable is exhausted the lookups put together are exactly the
    ids read.  With no id in the file nothing is looked up and the iterable
    is empty.  The Tweets handed out are those found by the lookups that
    were answered, in the order of the answers. *)
Theorem expand_tweetids_lookups (strip : string -> string)
    (ids_f : list string) (verbose : bool) (answers : list Ids.Answer) :
  let ids := Ids.read_ids strip ids_f in
  let '(st, ev, rest) := Ids.expand_tweetids strip ids_f verbose answers in
  lookups ev = firstn (List.length (lookups ev)) (Ids.id_chunks ids) /\
  Forall (fun chunk => (1 <= List.length chunk <= 100)%nat) (lookups ev) /\
  (st = Finished -> List.concat (lookups ev) = ids) /\
  (ids = [] -> st = Finished /\ lookups ev = []) /\
  fetched ev = found (firstn (List.length (lookups ev)) answers).
Proof.
  intros ids. unfold Ids.expand_tweetids. fold ids.
  pose proof (chain_lookups (Ids.id_chunks ids) answers) as H.
  destruct (Ids.chain (Ids.id_chunks ids) answers) as [[st ev] rest].
  destruct H as [H1 [H2 [H3 H4]]].
  destruct (id_chunks_cover ids) as [P1 P3].
  assert (E : forall pre, pre = (if verbose
                                 then [Ids.Counted (List.length ids)] else [])
              -> lookups (pre ++ ev) = lookups ev /\
                 fetched (pre ++ ev) = fetched ev).
  { intros pre ->. destruct verbose; split; reflexivity. }
  destruct (E _ eq_refl) as [E1 E2]. rewrite E1, E2.
  split; [exact H1|].
  split.
  { rewrite H1. apply Forall_firstn, P3. }
  split; [intros Hst; rewrite (H2 Hst); exact P1|].
  split; [|exact H4].
  intros Hnil.
  assert (Hc : Ids.id_chunks ids = []).
  { rewrite Hnil. reflexivity. }
  assert (Hl : lookups ev = []).
  { rewrite H1, Hc. destruct (List.length (lookups ev)); reflexivity. }
  split; [|exact Hl].
  destruct st as [|e| |]; try reflexivity; exfalso; apply H3;
    (discriminate || exact Hl).
Qed.

Lemma expand_tweetids_lookups_witness :
  List.concat
    (lookups
       (snd (fst (Ids.expand_tweetids (fun line => line) ["20"; ""; "22"]
                    true [Ids.Found [ex_tweet 20]]))))
  = ["20"; "22"].
Proof.
  exact (proj1 (proj2 (proj2
           (expand_tweetids_lookups (fun line => line) ["20"; ""; "22"] true
              [Ids.Found [ex_tweet 20]]))) eq_refl).
Defined.

(** ** The streaming loop and its connection *)

Lemma handler_event_engine (e : Event) : handler_event e -> engine_event e.
Proof. intros H. left. exact H. Qed.

Lemma on_success_emits (data : Tweet) :
  emits engine_event (Streamer.on_success data).
Proof.
  unfold Streamer.on_success. apply emits_bind; [intros w; constructor|].
  intros w. destruct (do_continue w).
  - destruct (handler w); [|apply emits_raise].
    destruct (t_text data); [|apply emits_ret].
    apply (emits_weaken handler_event); [exact handler_event_engine|].
    apply emits_bind; [apply handler_counter_incr_frame|intros _].
    apply emits_bind; [apply handler_handle_frame|intros _].
    apply emits_bind; [apply handler_do_continue_frame|intros b].
    apply emits_modify.
  - apply emits_bind.
    + unfold Streamer.disconnect. apply emits_bind.
      * apply emits_emit. right. reflexivity.
      * intros _. apply emits_modify.
    + intros _. apply (emits_weaken handler_event);
        [exact handler_event_engine|apply handler_on_finish_frame].
Qed.

Lemma handler_exn_engine (e : exn) : handler_exn e -> engine_exn e.
Proof. intros H. left. exact H. Qed.

Lemma raises_weaken {A : Type} (P Q : exn -> Prop) (m : M A) :
  (forall e, P e -> Q e) -> raises P m -> raises Q m.
Proof. intros H Hm w e E. apply H, (Hm w e E). Qed.

Lemma on_success_raises (data : Tweet) :
  raises engine_exn (Streamer.on_success data).
Proof.
  unfold Streamer.on_success. apply raises_bind; [intros w e E; inversion E|].
  intros w. destruct (do_continue w).
  - destruct (handler w);
      [|intros w' e E; inversion E; right; reflexivity].
    destruct (t_text data); [|intros w' e E; inversion E].
    apply (raises_weaken handler_exn); [exact handler_exn_engine|].
    apply raises_bind; [apply handler_counter_incr_frame|intros _].
    apply raises_bind; [apply handler_handle_frame|intros _].
    apply raises_bind; [apply handler_do_continue_frame|intros b].
    intros w' e E. inversion E.
  - apply (raises_weaken handler_exn); [exact handler_exn_engine|].
    apply raises_bind.
    + intros w' e E. inversion E.
    + intros _. apply handler_on_finish_frame.
Qed.

Lemma keeps_field_bind {A B C : Type} (g : World -> C) (m : M A)
    (f : A -> M B) :
  keeps_field g m -> (forall a, keeps_field g (f a)) ->
  keeps_field g (bind m f).
Proof.
  intros Hm Hf w. unfold bind. specialize (Hm w).
  destruct (m w) as [[[a|e1] w1] ev1]; cbn [world fst snd] in *; [|exact Hm].
  specialize (Hf a w1). destruct (f a w1) as [[r w2] ev2].
  cbn [world fst snd] in *. congruence.
Qed.

Lemma keeps_flags_fields {A : Type} (m : M A) :
  keeps_flags m -> keeps_field do_continue m /\ keeps_field connected m.
Proof. intros H. split; intros w; apply H. Qed.

Lemma on_success_flags (data : Tweet) (w : World) :
  (do_continue w = true ->
   connected (world (Streamer.on_success data w)) = connected w) /\
  (do_continue w = false ->
   do_continue (world (Streamer.on_success data w)) = false).
Proof.
  unfold Streamer.on_success.
  rewrite (bind_eq _ _ w w w []) by reflexivity.
  cbn [world fst snd].
  split; intros Hf; rewrite Hf.
  - destruct (handler w) as [h|]; [|reflexivity].
    destruct (t_text data); [|reflexivity].
    assert (K : keeps_field connected
                  (handler_counter_incr ;; handler_handle data ;;
                   b <- handler_do_continue ;; modify (with_do_continue b))).
    { apply keeps_field_bind;
        [apply keeps_flags_fields, handler_counter_incr_frame|intros _].
      apply keeps_field_bind;
        [apply keeps_flags_fields, handler_handle_frame|intros _].
      apply keeps_field_bind;
        [apply keeps_flags_fields, handler_do_continue_frame|intros b].
      intros w'. reflexivity. }
    apply K.
  - assert (K : keeps_field do_continue
                  (Streamer.disconnect ;; handler_on_finish)).
    { apply keeps_field_bind;
        [|intros _; apply keeps_flags_fields, handler_on_finish_frame].
      intros w'. reflexivity. }
    rewrite K. exact Hf.
Qed.

(** What one connection adds up to.  The streamer is disconnected only
    with its flag down. *)
Lemma receive_accounting (script : list Streamer.Inbound) :
  forall w : World, (connected w = false -> do_continue w = false) ->
  let r := Streamer.receive script w in
  Forall engine_event (events_of r) /\
  match status_of r with
  | Waiting => breaks script = 0
  | Finished =>
      breaks script = breaks (rest_of r) /\ do_continue (world_of r) = false
  | Failed ChunkedEncodingError => breaks script = 1 + breaks (rest_of r)
  | Failed e => engine_exn e
  | OutOfFuel => False
  end.
Proof.
  induction script as [|[data|seconds|] script IH]; intros w Hc;
    cbn [Streamer.receive].
  - cbn. split; [constructor|reflexivity].
  - destruct (connected w) eqn:Hcw.
    + pose proof (on_success_emits data w) as He.
      pose proof (on_success_raises data w) as Hr.
      pose proof (on_success_flags data w) as [Hf1 Hf2].
      destruct (Streamer.on_success data w) as [[[u|e] w1] ev1];
        cbn [events result world fst snd] in *.
      * assert (Hc1 : connected w1 = false -> do_continue w1 = false).
        { intros Hd. destruct (do_continue w) eqn:Hf;
            [|apply Hf2; reflexivity].
          specialize (Hf1 eq_refl). congruence. }
        destruct (IH w1 Hc1) as [H1 H2].
        unfold prepend. cbn [status_of events_of rest_of world_of breaks].
        split; [apply Forall_app; split; assumption|exact H2].
      * cbn [status_of events_of]. split; [exact He|].
        specialize (Hr e eq_refl).
        destruct e; try exact Hr; destruct Hr as [[]|Hr]; discriminate.
    + cbn [status_of events_of rest_of world_of breaks].
      split; [constructor|]. split; [reflexivity|]. apply Hc. reflexivity.
  - cbn [breaks]. apply IH. exact Hc.
  - cbn [status_of events_of rest_of breaks]. split; [constructor|reflexivity].
Qed.

Lemma engine_event_counts (ev : list Event) :
  Forall engine_event ev ->
  count is_stream_request ev = 0 /\ count is_stream_error ev = 0.
Proof.
  induction 1 as [|e ev He _ [IH1 IH2]]; [split; reflexivity|].
  cbn [count]. rewrite IH1, IH2.
  destruct He as [He| ->]; [|split; reflexivity].
  destruct e as [[]| | | | | | | | |]; cbn in He; try contradiction;
    split; reflexivity.
Qed.

Lemma while_reconnects (e : Endpoint) (fuel : nat) :
  forall (script : list Streamer.Inbound) (w : World),
  let r := Streamer.while_do_continue fuel (Streamer.statuses e) script w in
  status_of r = Waiting ->
  count is_stream_request (events_of r) = 1 + breaks script /\
  count is_stream_error (events_of r) = breaks script.
Proof.
  induction fuel as [|fuel IH]; intros script w; cbn [Streamer.while_do_continue];
    [discriminate|].
  destruct (do_continue w); [|discriminate].
  cbv zeta.
  destruct (receive_accounting script (with_connected true w)
              ltac:(discriminate)) as [Hev Hst].
  destruct (engine_event_counts _ Hev) as [C1 C2].
  set (rr := Streamer.receive script (with_connected true w)) in *.
  change (status_of (Streamer.statuses e script w)) with (status_of rr).
  change (events_of (Streamer.statuses e script w))
    with (StreamRequest e :: events_of rr).
  change (rest_of (Streamer.statuses e script w)) with (rest_of rr).
  change (world_of (Streamer.statuses e script w)) with (world_of rr).
  change (Streamer.statuses e script w) with (prepend [StreamRequest e] rr).
  destruct (status_of rr) as [|ex| |] eqn:E.
  - (* the connection ended with the flag down *)
    destruct Hst as [_ Hdown]. intros H. exfalso. revert H.
    unfold prepend. cbn [status_of].
    destruct fuel as [|fuel']; cbn [Streamer.while_do_continue status_of];
      [discriminate|].
    rewrite Hdown. discriminate.
  - destruct ex;
      try (intros H; unfold prepend in H; cbn [status_of] in H; congruence).
    (* the connection broke *)
    intros H. unfold prepend in H. cbn [status_of] in H.
    destruct (IH (rest_of rr) (world_of rr) H) as [I1 I2].
    unfold prepend. cbn [events_of].
    cbn [app count is_stream_request is_stream_error].
    rewrite !count_app, C1, C2, I1, I2.
    cbn [count is_stream_request is_stream_error is_stream_error].
    rewrite Hst. split; lia.
  - intros _. unfold prepend. cbn [events_of app count is_stream_request
      is_stream_error].
    rewrite C1, C2, Hst. split; reflexivity.
  - intros H. unfold prepend in H. cbn [status_of] in H. congruence.
Qed.

(** X4.  Reconnecting.  When [sample] is still waiting on its connection
    at the end of what arrived, it has opened exactly one connection more
    than the number of times the connection broke, and it has printed the
    error line once for every break. *)
Theorem sample_reconnects (script : list Streamer.Inbound) (w : World)
    (Hwait : status_of (Streamer.sample script w) = Waiting) :
  count is_stream_request (events_of (Streamer.sample script w))
    = 1 + breaks script /\
  count is_stream_error (events_of (Streamer.sample script w))
    = breaks script.
Proof. apply while_reconnects. exact Hwait. Qed.

Lemma sample_reconnects_witness :
  count is_stream_request
    (events_of
       (Streamer.sample
          [Streamer.Message (ex_tweet 1); Streamer.Broken;
           Streamer.Message (ex_tweet 2)]
          (ex_world (ex_viewer 10))))
  = 2.
Proof.
  exact (proj1 (sample_reconnects
                  [Streamer.Message (ex_tweet 1); Streamer.Broken;
                   Streamer.Message (ex_tweet 2)]
                  (ex_world (ex_viewer 10)) eq_refl)).
Defined.

Lemma statuses_fails (e : Endpoint) (script : list Streamer.Inbound)
    (w : World) (x : exn) :
  status_of (Streamer.statuses e script w) = Failed x ->
  x = ChunkedEncodingError \/ engine_exn x.
Proof.
  unfold Streamer.statuses, prepend. cbn [status_of]. intros E.
  destruct (receive_accounting script (with_connected true w)
              ltac:(discriminate)) as [_ H].
  rewrite E in H. destruct x; auto.
Qed.

Lemma while_outcome (P : exn -> Prop) (fuel : nat)
    (body : list Streamer.Inbound -> World -> Run Streamer.Inbound)
    (Hbody : forall script w x, status_of (body script w) = Failed x ->
             x = ChunkedEncodingError \/ P x) :
  forall (script : list Streamer.Inbound) (w : World),
  match status_of (Streamer.while_do_continue fuel body script w) with
  | Finished =>
      do_continue
        (world_of (Streamer.while_do_continue fuel body script w)) = false
  | Failed x => P x
  | _ => True
  end.
Proof.
  induction fuel as [|fuel IH]; intros script w;
    cbn [Streamer.while_do_continue]; [exact I|].
  destruct (do_continue w) eqn:Hf; [|exact Hf]. cbv zeta.
  pose proof (Hbody script w) as Hb.
  destruct (status_of (body script w)) as [|x| |] eqn:E.
  - unfold prepend. cbn [status_of world_of]. apply IH.
  - destruct x;
      try (rewrite E; destruct (Hb _ eq_refl) as [C|H];
           [discriminate|exact H]).
    unfold prepend. cbn [status_of world_of]. apply IH.
  - rewrite E. exact I.
  - rewrite E. exact I.
Qed.

Lemma sample_outcome (script : list Streamer.Inbound) (w : World) :
  match status_of (Streamer.sample script w) with
  | Finished => do_continue (world_of (Streamer.sample script w)) = false
  | Failed x => engine_exn x
  | Waiting => True
  | OutOfFuel => False
  end.
Proof.
  pose proof (sample_total script w) as T.
  pose proof (while_outcome engine_exn (S (List.length script))
                (Streamer.statuses StatusesSample)
                (statuses_fails StatusesSample) script w) as O.
  fold (Streamer.sample script w) in O.
  destruct (status_of (Streamer.sample script w)); auto.
Qed.

Lemma filter_outcome (track follow lang : string)
    (script : list Streamer.Inbound) (w : World) :
  match status_of (Streamer.filter track follow lang script w) with
  | Finished =>
      do_continue (world_of (Streamer.filter track follow lang script w))
      = false
  | Failed x =>
      engine_exn x \/
      (x = ValueError Streamer.msg /\
       String.eqb track "" && String.eqb follow "" = true)
  | Waiting => True
  | OutOfFuel => False
  end.
Proof.
  pose proof (filter_total track follow lang script w) as T.
  assert (Hb : forall script w x,
             status_of (Streamer.filter_body track follow lang script w)
             = Failed x ->
             x = ChunkedEncodingError \/
             (engine_exn x \/
              (x = ValueError Streamer.msg /\
               String.eqb track "" && String.eqb follow "" = true))).
  { intros script' w' x. unfold Streamer.filter_body.
    destruct (String.eqb track "" && String.eqb follow "").
    - cbn [status_of]. intros E. inversion E. right. right. split; reflexivity.
    - intros E. destruct (statuses_fails _ _ _ _ E); auto. }
  pose proof (while_outcome _ (S (List.length script)) _ Hb script w) as O.
  fold (Streamer.filter track follow lang script w) in O.
  destruct (status_of (Streamer.filter track follow lang script w)); auto.
Qed.

(** X5.  How the streaming operations end.  [sample] and [filter] never
    let a [ChunkedEncodingError] out: their loop catches it and goes on.
    The loop always comes to an end, or it waits on the connection.  And
    when [sample] or [filter] returns, the flag of the streamer is down. *)
Theorem stream_outcome (track follow lang : string)
    (script : list Streamer.Inbound) (w : World) :
  match status_of (Streamer.sample script w) with
  | Finished => do_continue (world_of (Streamer.sample script w)) = false
  | Failed x => x <> ChunkedEncodingError
  | Waiting => True
  | OutOfFuel => False
  end /\
  match status_of (Streamer.filter track follow lang script w) with
  | Finished =>
      do_continue (world_of (Streamer.filter track follow lang script w))
      = false
  | Failed x => x <> ChunkedEncodingError
  | Waiting => True
  | OutOfFuel => False
  end.
Proof.
  assert (Hb : forall (body : list Streamer.Inbound -> World ->
                              Run Streamer.Inbound) script w x,
             status_of (body script w) = Failed x ->
             x = ChunkedEncodingError \/ x <> ChunkedEncodingError).
  { intros body script' w' x _. destruct x; auto; right; discriminate. }
  split.
  - pose proof (sample_total script w) as T.
    pose proof (while_outcome (fun x => x <> ChunkedEncodingError)
                  (S (List.length script))
                  (Streamer.statuses StatusesSample) (Hb _) script w) as O.
    fold (Streamer.sample script w) in O.
    destruct (status_of (Streamer.sample script w)); auto.
  - pose proof (filter_total track follow lang script w) as T.
    pose proof (while_outcome (fun x => x <> ChunkedEncodingError)
                  (S (List.length script))
                  (Streamer.filter_body track follow lang) (Hb _) script w)
      as O.
    fold (Streamer.filter track follow lang script w) in O.
    destruct (status_of (Streamer.filter track follow lang script w)); auto.
Qed.

Lemma while_fuel_irrelevant
    (body : list Streamer.Inbound -> World -> Run Streamer.Inbound) :
  progressing body ->
  forall (fuel1 fuel2 : nat) (script : list Streamer.Inbound) (w : World),
  (List.length script < fuel1)%nat -> (List.length script < fuel2)%nat ->
  Streamer.while_do_continue fuel1 body script w
  = Streamer.while_do_continue fuel2 body script w.
Proof.
  intros Hbody. induction fuel1 as [|fuel1 IH]; intros fuel2 script w H1 H2;
    [lia|].
  destruct fuel2 as [|fuel2]; [lia|].
  cbn [Streamer.while_do_continue].
  destruct (do_continue w); [|reflexivity]. cbv zeta.
  destruct (Hbody script w) as [_ Hp].
  destruct (status_of (body script w)) as [|[]| |] eqn:E; try reflexivity.
  - rewrite (IH fuel2); [reflexivity| |];
      specialize (Hp (or_introl eq_refl)); lia.
  - rewrite (IH fuel2); [reflexivity| |];
      specialize (Hp (or_intror eq_refl)); lia.
Qed.

Lemma receive_skips (junk : list Tweet) (rest : list Streamer.Inbound)
    (w : World) :
  Forall (fun data => t_text data = None) junk ->
  do_continue w = true -> connected w = true -> handler w <> None ->
  Streamer.receive (map Streamer.Message junk ++ rest) w
  = Streamer.receive rest w.
Proof.
  intros Hjunk Hf Hc Hh. induction Hjunk as [|data junk Hd _ IH];
    [reflexivity|].
  cbn [map app Streamer.receive].
  assert (E : Streamer.on_success data w = (Return tt, w, [])).
  { unfold Streamer.on_success.
    rewrite (bind_eq _ _ w w w []) by reflexivity.
    rewrite Hf, Hd. destruct (handler w); [reflexivity|congruence]. }
  rewrite E, Hc. rewrite IH.
  unfold prepend. destruct (Streamer.receive rest w); reflexivity.
Qed.

Lemma while_skips
    (body : list Streamer.Inbound -> World -> Run Streamer.Inbound)
    (script1 script2 : list Streamer.Inbound) (w : World) :
  progressing body ->
  body script1 w = body script2 w ->
  do_continue w = true ->
  (List.length script2 <= List.length script1)%nat ->
  Streamer.while_do_continue (S (List.length script1)) body script1 w
  = Streamer.while_do_continue (S (List.length script2)) body script2 w.
Proof.
  intros Hprog Hb Hf Hlen. cbn [Streamer.while_do_continue].
  rewrite Hf. cbv zeta. rewrite Hb.
  destruct (Hprog script2 w) as [_ Hp].
  destruct (status_of (body script2 w)) as [|[]| |] eqn:E; try reflexivity;
    (rewrite (while_fuel_irrelevant _ Hprog (List.length script1)
                (List.length script2)); [reflexivity| |]);
    try (specialize (Hp (or_introl eq_refl)); lia);
    try (specialize (Hp (or_intror eq_refl)); lia).
Qed.

(** X3.  Messages without a text are skipped.  On a streamer whose flag is
    up and that has a handler, messages without a [text] at the head of
    what arrives change nothing: the session is the one without them, with
    the same events, the same counter and the same outcome.  This holds for
    [sample], and for [filter] with a track or a follow. *)
Theorem textless_messages_are_skipped (track follow lang : string)
    (junk : list Tweet) (rest : list Streamer.Inbound) (w : World)
    (Hjunk : Forall (fun data => t_text data = None) junk)
    (Hflag : do_continue w = true)
    (Hhandler : handler w <> None)
    (Hargs : String.eqb track "" && String.eqb follow "" = false) :
  Streamer.sample (map Streamer.Message junk ++ rest) w
  = Streamer.sample rest w /\
  Streamer.filter track follow lang (map Streamer.Message junk ++ rest) w
  = Streamer.filter track follow lang rest w.
Proof.
  assert (Hlen : (List.length rest
                  <= List.length (map Streamer.Message junk ++ rest))%nat).
  { rewrite length_app. lia. }
  assert (Hs : forall e,
             Streamer.statuses e (map Streamer.Message junk ++ rest) w
             = Streamer.statuses e rest w).
  { intros e. unfold Streamer.statuses.
    rewrite receive_skips; auto. }
  split.
  - apply while_skips; auto. apply statuses_progressing.
  - apply while_skips; auto.
    + intros script' w'. unfold Streamer.filter_body. rewrite Hargs.
      apply statuses_progressing.
    + unfold Streamer.filter_body. rewrite Hargs. apply Hs.
Qed.

Lemma textless_messages_are_skipped_witness :
  Streamer.sample
    (map Streamer.Message [mkTweet 7 None None]
     ++ [Streamer.Message (ex_tweet 1)])
    (ex_world (ex_viewer 4))
  = Streamer.sample [Streamer.Message (ex_tweet 1)] (ex_world (ex_viewer 4)).
Proof.
  exact (proj1 (textless_messages_are_skipped "nltk" "" "en"
                  [mkTweet 7 None None] [Streamer.Message (ex_tweet 1)]
                  (ex_world (ex_viewer 4))
                  ltac:(repeat constructor) eq_refl
                  ltac:(discriminate) eq_refl)).
Defined.

(** ** The search generator: rate limits, request sizes, yields *)

Lemma with_clock_add (w : World) (a b : nat) :
  with_clock (clock (with_clock (clock w + a) w) + b)
    (with_clock (clock w + a) w)
  = with_clock (clock w + (a + b)) w.
Proof. destruct w. unfold with_clock. cbn. f_equal. lia. Qed.

Lemma with_clock_same (w : World) : with_clock (clock w + 0) w = w.
Proof. destruct w. unfold with_clock. cbn. f_equal. lia. Qed.

(** X6.  Rate limits in the pagination loop.  While records are still
    wanted, [k] rate-limit errors in a row cost [k] requests with the same
    count and cursor, [k] printed lines and [k] sleeps of 900 seconds, and
    nothing else: after them the loop is where it was, [900 * k] seconds
    later, with its count of retries untouched.  However many they are,
    rate-limit errors are never fatal. *)
Theorem rate_limit_waits (consume : Tweet -> M unit) (limit n : Z) (k : nat)
    (script : list Query.Response) (l : Query.Locals) (w : World)
    (Hmore : Query.count_from_query l < limit) :
  Query.pagination consume limit n
    (List.repeat Query.RaisesTwythonRateLimitError k ++ script) l w
  = prepend
      (List.concat
         (List.repeat
            [SearchRequest (Z.min 100 (limit - Query.count_from_query l))
               (Query.local_max_id l);
             Printed MsgWaiting; Slept 900] k))
      (Query.pagination consume limit n script l
         (with_clock (clock w + 900 * k) w)).
Proof.
  revert w. induction k as [|k IH]; intros w.
  - cbn [List.repeat List.concat app]. rewrite prepend_nil.
    rewrite Nat.mul_0_r, with_clock_same. reflexivity.
  - cbn [List.repeat List.concat app Query.pagination].
    apply Z.ltb_lt in Hmore. rewrite Hmore. cbv zeta.
    cbn [Query.iteration].
    change ((emit (Printed MsgWaiting) ;; emit (Slept (15 * 60)) ;;
             modify (fun w0 => with_clock (clock w0 + 900) w0) ;;
             ret (Query.Next l)) w)
      with (Return (Query.Next l), with_clock (clock w + 900) w,
            [Printed MsgWaiting; Slept 900]).
    cbv iota beta. rewrite IH, with_clock_add, prepend_prepend.
    replace (900 + 900 * k)%nat with (900 * S k)%nat by lia.
    reflexivity.
Qed.

Lemma rate_limit_waits_witness :
  events_of
    (Query.pagination just_iterate 5 0
       (List.repeat Query.RaisesTwythonRateLimitError 2 ++ [])
       (Query.mkLocals 0 (Some 10) 0 None) ex_bare)
  = [SearchRequest 5 (Some 10); Printed MsgWaiting; Slept 900;
     SearchRequest 5 (Some 10); Printed MsgWaiting; Slept 900;
     SearchRequest 5 (Some 10)].
Proof.
  rewrite (rate_limit_waits just_iterate 5 0 2 []
             (Query.mkLocals 0 (Some 10) 0 None) ex_bare eq_refl).
  reflexivity.
Defined.

(** X9.  The first request of a search without a cursor is outside the
    error handling of the loop.  A rate-limit error on it is not waited
    out, and a transport error on it is not retried, whatever number of
    retries is configured: either escapes at once, after a single request,
    with nothing slept and nothing yielded. *)
Theorem initial_request_is_unguarded (consume : Tweet -> M unit)
    (limit : Z) (max_id : option Z) (n : Z) (script : list Query.Response)
    (w : World)
    (Hmax : Query.truthy max_id = false) :
  let limited :=
    Query.search_tweets consume limit max_id n
      (Query.RaisesTwythonRateLimitError :: script) w in
  let failed :=
    Query.search_tweets consume limit max_id n
      (Query.RaisesTwythonError :: script) w in
  status_of limited = Failed TwythonRateLimitError /\
  status_of failed = Failed TwythonError /\
  events_of limited = [SearchRequest (Z.min 100 limit) None] /\
  events_of failed = [SearchRequest (Z.min 100 limit) None] /\
  rest_of limited = script /\ rest_of failed = script /\
  clock (world_of limited) = clock w.
Proof.
  cbv zeta. unfold Query.search_tweets. rewrite Hmax. cbn.
  destruct (handler w); repeat split; reflexivity.
Qed.

Lemma initial_request_is_unguarded_witness :
  status_of (Query.search_tweets just_iterate 5 None 3
               [Query.RaisesTwythonError; Query.Statuses [ex_tweet 1]]
               ex_bare)
  = Failed TwythonError.
Proof.
  exact (proj1 (proj2 (initial_request_is_unguarded just_iterate 5 None 3
                         [Query.Statuses [ex_tweet 1]] ex_bare eq_refl))).
Defined.

Lemma handler_event_in_bounds (e : Event) :
  handler_event e -> request_in_bounds e.
Proof. destruct e; cbn; try exact (fun _ => I). contradiction. Qed.

Lemma handler_event_not_yielded (e : Event) : handler_event e -> not_yielded e.
Proof. destruct e; cbn; try reflexivity; contradiction. Qed.

Lemma update_handler_silent (f : Handler -> Handler) (w : World) :
  events (update_handler f w) = [].
Proof.
  unfold update_handler, bind, self_handler, modify.
  destruct (handler w); reflexivity.
Qed.

Lemma emits_update_handler (P : Event -> Prop) (f : Handler -> Handler) :
  emits P (update_handler f).
Proof. intros w. rewrite update_handler_silent. constructor. Qed.

Section Consumer.

Variable consume : Tweet -> M unit.
Variable P : Event -> Prop.
Hypothesis P_handler : forall e, handler_event e -> P e.
Hypothesis P_consume : forall t, emits P (consume t).

Lemma yield_each_emits (statuses : list Tweet) :
  (forall t, P (Yielded t)) -> emits P (Query.yield_each consume statuses).
Proof.
  intros Hy. induction statuses as [|t statuses IH]; cbn [Query.yield_each].
  - apply emits_ret.
  - apply emits_bind; [apply emits_emit, Hy|intros _].
    apply emits_bind; [apply P_consume|intros _].
    apply emits_bind;
      [apply (emits_weaken handler_event); [exact P_handler|];
       apply handler_counter_incr_frame|intros _].
    apply emits_bind;
      [apply (emits_weaken handler_event); [exact P_handler|];
       apply handler_do_continue_frame|intros b].
    destruct (Bool.eqb b false); [apply emits_ret|exact IH].
Qed.

Lemma process_results_emits (l : Query.Locals) :
  (forall t, P (Yielded t)) -> P (Printed MsgNoMoreTweets) ->
  emits P (Query.process_results consume l).
Proof.
  intros Hy Hm. unfold Query.process_results.
  destruct (Query.results l) as [statuses|]; [|apply emits_raise].
  cbv zeta. destruct (Query.len statuses =? 0).
  - apply emits_bind; [apply emits_emit, Hm|intros _; apply emits_ret].
  - apply emits_bind; [apply emits_update_handler|intros _].
    apply emits_bind; [apply yield_each_emits, Hy|intros b].
    destruct b; apply emits_ret.
Qed.

Lemma iteration_emits (n : Z) (answer : Query.Response) (l : Query.Locals) :
  (forall t, P (Yielded t)) -> (forall m, P (Printed m)) ->
  (forall s, P (Slept s)) ->
  emits P (Query.iteration consume n answer l).
Proof.
  intros Hy Hm Hs. destruct answer; cbn [Query.iteration].
  - apply process_results_emits; auto.
  - apply emits_bind; [apply emits_emit, Hm|intros _].
    apply emits_bind; [apply emits_emit, Hs|intros _].
    apply emits_bind; [apply emits_modify|intros _]. apply emits_ret.
  - apply emits_bind; [apply emits_emit, Hm|intros _].
    destruct (n =? Query.retries l); [apply emits_raise|].
    apply process_results_emits; auto.
Qed.

Lemma initial_page_emits (statuses : list Tweet) :
  (forall t, P (Yielded t)) -> P (Printed MsgNoTweets) ->
  emits P (Query.initial_page consume statuses).
Proof.
  intros Hy Hm. unfold Query.initial_page. cbv zeta.
  destruct (Query.len statuses =? 0).
  - apply emits_bind; [apply emits_emit, Hm|intros _; apply emits_ret].
  - apply emits_bind; [apply yield_each_emits, Hy|intros b].
    destruct b; apply emits_ret.
Qed.

End Consumer.

Lemma pagination_in_bounds (consume : Tweet -> M unit) (limit n : Z)
    (Hc : forall t, emits request_in_bounds (consume t))
    (script : list Query.Response) :
  forall (l : Query.Locals) (w : World),
  Forall request_in_bounds
    (events_of (Query.pagination consume limit n script l w)).
Proof.
  induction script as [|answer script IH]; intros l w;
    cbn [Query.pagination];
    destruct (Query.count_from_query l <? limit) eqn:E;
    try (cbn [events_of]; constructor; fail); cbv zeta.
  - cbn [events_of]. constructor; [|constructor]. cbn.
    apply Z.ltb_lt in E. lia.
  - assert (Hreq : request_in_bounds
              (SearchRequest (Z.min 100 (limit - Query.count_from_query l))
                 (Query.local_max_id l))).
    { cbn. apply Z.ltb_lt in E. lia. }
    pose proof (iteration_emits consume request_in_bounds
                  handler_event_in_bounds Hc n answer l
                  (fun _ => I) (fun _ => I) (fun _ => I) w) as He.
    destruct (Query.iteration consume n answer l w) as [[[[l'|]|x] w'] ev];
      cbn [events] in He; unfold prepend; cbn [events_of].
    + constructor; [exact Hreq|]. apply Forall_app. split; [exact He|apply IH].
    + constructor; [exact Hreq|exact He].
    + constructor; [exact Hreq|exact He].
Qed.

(** X7.  The size of a request.  With [limit >= 1] and a consumer that
    sends no oversized request of its own, every request [search_tweets]
    sends asks for at least 1 and at most 100 records, whatever the remote
    side answers and however the generator ends. *)
Theorem requests_in_bounds (consume : Tweet -> M unit) (limit : Z)
    (max_id : option Z) (n : Z) (script : list Query.Response) (w : World)
    (Hlimit : 1 <= limit)
    (Hconsume : forall t, emits request_in_bounds (consume t)) :
  Forall request_in_bounds
    (events_of (Query.search_tweets consume limit max_id n script w)).
Proof.
  unfold Query.search_tweets. cbv zeta.
  set (w0 := match handler w with
             | Some _ => w
             | None => with_handler (Some (Query.default_handler limit)) w
             end).
  assert (Hreq : request_in_bounds (SearchRequest (Z.min 100 limit) None)).
  { cbn. lia. }
  destruct (negb (Query.truthy max_id));
    [|apply pagination_in_bounds; exact Hconsume].
  destruct script as [|[statuses| |] script]; cbn [events_of];
    try (constructor; [exact Hreq|constructor]).
  pose proof (initial_page_emits consume request_in_bounds
                handler_event_in_bounds Hconsume statuses
                (fun _ => I) I w0) as He.
  destruct (Query.initial_page consume statuses w0) as [[[[l'|]|x] w'] ev];
    cbn [events] in He; unfold prepend; cbn [events_of].
  - constructor; [exact Hreq|]. apply Forall_app. split; [exact He|].
    apply pagination_in_bounds. exact Hconsume.
  - constructor; [exact Hreq|exact He].
  - constructor; [exact Hreq|exact He].
Qed.

Lemma requests_in_bounds_witness :
  Forall request_in_bounds
    (events_of (Query.search_tweets just_iterate 150 None 0
                  [Query.Statuses [ex_tweet 3]] ex_bare)).
Proof.
  apply requests_in_bounds; [lia|intros t w; constructor].
Defined.

Lemma count_none (p : Event -> bool) (ev : list Event) :
  Forall (fun e => p e = false) ev -> count p ev = 0.
Proof.
  induction 1 as [|e ev He _ IH]; [reflexivity|].
  cbn [count]. rewrite He, IH. reflexivity.
Qed.

Lemma count_nonneg (p : Event -> bool) (ev : list Event) : 0 <= count p ev.
Proof.
  induction ev as [|e ev IH]; cbn [count]; [lia|]. destruct (p e); lia.
Qed.

Section Yields.

Variable consume : Tweet -> M unit.
Hypothesis consume_quiet : forall t, emits not_yielded (consume t).

Lemma yield_each_count (statuses : list Tweet) :
  forall w : World,
  count is_yielded (events (Query.yield_each consume statuses w))
  <= Query.len statuses.
Proof.
  induction statuses as [|t statuses IH]; intros w.
  - cbn. lia.
  - rewrite yield_each_cons, len_cons.
    assert (Hq : emits not_yielded
                   (consume t ;; handler_counter_incr ;; handler_do_continue)).
    { apply emits_bind; [apply consume_quiet|intros _].
      apply emits_bind;
        [apply (emits_weaken handler_event);
           [exact handler_event_not_yielded|];
         apply handler_counter_incr_frame|intros _].
      apply (emits_weaken handler_event);
        [exact handler_event_not_yielded|].
      apply handler_do_continue_frame. }
    specialize (Hq w).
    destruct ((consume t ;; handler_counter_incr ;; handler_do_continue) w)
      as [[[b|x] w1] ev1]; cbn [events snd] in Hq.
    + pose proof (count_none is_yielded ev1 Hq) as C1.
      destruct (Bool.eqb b false).
      * cbn [ret events snd count is_yielded].
        rewrite count_app, C1. cbn [count].
        pose proof (len_nonneg statuses). lia.
      * specialize (IH w1).
        destruct (Query.yield_each consume statuses w1) as [[r2 w2] ev2].
        cbn [events snd count is_yielded] in *.
        rewrite count_app, C1. lia.
    + pose proof (count_none is_yielded ev1 Hq) as C1.
      cbn [events snd count is_yielded]. rewrite C1.
      pose proof (len_nonneg statuses). lia.
Qed.

Lemma process_results_yields (l : Query.Locals) (statuses : list Tweet)
    (w : World) :
  Query.results l = Some statuses ->
  count is_yielded (events (Query.process_results consume l w))
  <= Query.len statuses /\
  forall l', result (Query.process_results consume l w)
             = Return (Query.Next l') ->
    Query.count_from_query l'
    = Query.count_from_query l + Query.len statuses /\
    Query.retries l' = Query.retries l.
Proof.
  intros Hres. unfold Query.process_results. rewrite Hres. cbv zeta.
  pose proof (len_nonneg statuses) as Hlen.
  destruct (Query.len statuses =? 0).
  - cbn. split; [lia|]. intros l' E. discriminate.
  - unfold bind.
    pose proof (update_handler_silent
                  (set_max_id
                     (Some (Query.id_at statuses (Query.len statuses - 1) - 1)))
                  w) as Hs.
    destruct (update_handler _ w) as [[[u|x] w1] ev1]; cbn [events snd] in Hs;
      subst ev1.
    + pose proof (yield_each_count statuses w1) as Hy.
      destruct (Query.yield_each consume statuses w1) as [[[b|x] w2] ev2];
        cbn [events snd] in Hy.
      * destruct b; cbn [ret events result fst snd app];
          rewrite ?app_nil_r; (split; [exact Hy|]); intros l' E;
          inversion E; subst; cbn; split; reflexivity.
      * cbn [events result fst snd app]. split; [exact Hy|].
        intros l' E. discriminate.
    + cbn. split; [lia|]. intros l' E. discriminate.
Qed.

Lemma pagination_yields (limit n : Z) (script : list Query.Response) :
  forall (l : Query.Locals) (w : World),
  Query.count_from_query l <= limit ->
  honours limit (Query.count_from_query l) script ->
  Query.retries l = n ->
  count is_yielded (events_of (Query.pagination consume limit n script l w))
  <= limit - Query.count_from_query l.
Proof.
  induction script as [|answer script IH]; intros l w Hle Hh Hr;
    cbn [Query.pagination];
    destruct (Query.count_from_query l <? limit) eqn:E;
    try (cbn [events_of count]; lia); cbv zeta.
  - cbn [events_of count is_yielded]. lia.
  - apply Z.ltb_lt in E.
    destruct answer as [statuses| |]; cbn [Query.iteration honours] in *.
    + destruct Hh as [Hpage Hh].
      set (l1 := Query.mkLocals (Query.count_from_query l)
                   (Query.local_max_id l) (Query.retries l) (Some statuses)).
      destruct (process_results_yields l1 statuses w eq_refl) as [Hy Hn].
      destruct (Query.process_results consume l1 w) as [[[[l'|]|x] w'] ev];
        cbn [events result fst snd] in *; unfold prepend;
        cbn [events_of count is_yielded].
      * destruct (Hn l' eq_refl) as [Hc Hr']. cbn in Hc, Hr'.
        rewrite count_app.
        assert (IH' : count is_yielded
                        (events_of (Query.pagination consume limit n script l' w'))
                      <= limit - Query.count_from_query l').
        { apply IH; [lia|rewrite Hc; exact Hh|congruence]. }
        cbn [count is_yielded]. lia.
      * lia.
      * lia.
    + change ((emit (Printed MsgWaiting) ;; emit (Slept (15 * 60)) ;;
               modify (fun w0 => with_clock (clock w0 + 900) w0) ;;
               ret (Query.Next l)) w)
        with (Return (Query.Next l), with_clock (clock w + 900) w,
              [Printed MsgWaiting; Slept 900]).
      cbv iota beta. unfold prepend. cbn [events_of app count is_yielded].
      specialize (IH l (with_clock (clock w + 900) w) Hle Hh Hr). lia.
    + assert (En : (n =? Query.retries l) = true) by (apply Z.eqb_eq; auto).
      unfold bind, emit. rewrite En. cbn. lia.
Qed.

End Yields.

(** X8.  The records handed out.  With no retries (the default), a
    non-negative [limit] and a remote side that never answers with more
    records than the request asked for, [search_tweets] yields at most
    [limit] records, with or without a cursor, whatever the consumer and
    the handler do. *)
Theorem yields_at_most_limit (consume : Tweet -> M unit) (limit : Z)
    (max_id : option Z) (script : list Query.Response) (w : World)
    (Hlimit : 0 <= limit)
    (Hscript : honours limit 0 script)
    (Hconsume : forall t, emits not_yielded (consume t)) :
  count is_yielded
    (events_of (Query.search_tweets consume limit max_id 0 script w))
  <= limit.
Proof.
  unfold Query.search_tweets. cbv zeta.
  set (w0 := match handler w with
             | Some _ => w
             | None => with_handler (Some (Query.default_handler limit)) w
             end).
  destruct (negb (Query.truthy max_id)).
  - destruct script as [|[statuses| |] script]; cbn [events_of count is_yielded];
      try lia.
    cbn [honours] in Hscript. destruct Hscript as [Hpage Hh].
    unfold Query.initial_page. cbv zeta.
    pose proof (len_nonneg statuses) as Hlen.
    destruct (Query.len statuses =? 0); [cbn; lia|].
    unfold bind. pose proof (yield_each_count consume Hconsume statuses w0) as Hy.
    destruct (Query.yield_each consume statuses w0) as [[[b|x] w2] ev2];
      cbn [events snd] in Hy.
    + destruct b; cbn [ret]; rewrite ?app_nil_r; unfold prepend;
        cbn [events_of count is_yielded]; [lia|].
      rewrite count_app.
      pose proof (pagination_yields consume Hconsume limit 0 script
                    (Query.mkLocals (Query.len statuses)
                       (Some (Query.id_at statuses (Query.len statuses - 1) - 1))
                       0 (Some statuses)) w2) as Hp.
      cbn [Query.count_from_query Query.retries] in Hp.
      assert (Hle : Query.len statuses <= limit) by lia.
      specialize (Hp Hle Hh eq_refl). cbn [count is_yielded]. lia.
    + cbn [events_of count is_yielded]. lia.
  - pose proof (pagination_yields consume Hconsume limit 0 script
                  (Query.mkLocals 0 max_id 0 None) w0) as Hp.
    cbn [Query.count_from_query Query.retries] in Hp.
    specialize (Hp Hlimit Hscript eq_refl). lia.
Qed.

Lemma yields_at_most_limit_witness :
  count is_yielded
    (events_of (Query.search_tweets just_iterate 2 None 0
                  [Query.Statuses [ex_tweet 3; ex_tweet 2]] ex_bare))
  <= 2.
Proof.
  apply yields_at_most_limit;
    [lia|cbn; split; [lia|exact I]|intros t w; constructor].
Defined.

(** ** The writer: file names and records without a date *)

(** X10.  File names have a resolution of one second.  When a writer whose
    file was named at the present reading of the clock rotates (the clock
    has not moved on since), the new file name is the old one: the file
    just closed is the one the next record opens for writing again, so what
    was written to it is overwritten. *)
Theorem rotation_in_the_same_second (w : World) (h : Handler) (data : Tweet)
    (Hh : handler w = Some h)
    (Hname : fname h
             = mkFileName (TweetWriter.path_join (subdir h) (fprefix h))
                 (clock w) (if gzip_compress h then ".gz" else ""))
    (Hopen : output h = Some (mkFile (fname h) false)) :
  exists w1 h1 ev1,
    TweetWriter._restart_file w
    = (Return tt, w1,
       Printed (MsgWritten (counter h)) :: Closed (fname h) :: ev1) /\
    handler w1 = Some h1 /\ fname h1 = fname h /\ clock w1 = clock w /\
    count is_opened ev1 = 0 /\
    firstn 3 (events (TweetWriter.handle data w1))
    = [Opened (fname h) (gzip_compress h);
       Printed (MsgWritingTo (fname h));
       Wrote (fname h) (gzip_compress h) data].
Proof.
  open_world w h Hh. run.
  destruct (String.eqb hsubdir ""); cbn;
    [|destruct (existsb (String.eqb hsubdir) wdirs); cbn];
    (eexists; eexists; eexists; split; [reflexivity|]); cbn;
    (split; [reflexivity|]); (split; [reflexivity|]);
    (split; [reflexivity|]); (split; [reflexivity|]);
    destruct hdate as [d|]; cbn; try reflexivity;
    destruct (t_created_at data) as [td|]; cbn; try reflexivity;
    destruct (_ || _); cbn; reflexivity.
Qed.

Lemma rotation_in_the_same_second_witness :
  let h := set_output (Some (mkFile ex_fname false))
             (set_startingup false (ex_writer 1 None true true)) in
  exists w1 h1 ev1,
    TweetWriter._restart_file (ex_world h)
    = (Return tt, w1,
       Printed (MsgWritten 0) :: Closed ex_fname :: ev1) /\
    handler w1 = Some h1 /\ fname h1 = ex_fname.
Proof.
  intros h.
  destruct (rotation_in_the_same_second (ex_world h) h (ex_tweet 1)
              eq_refl eq_refl eq_refl)
    as (w1 & h1 & ev1 & E & Hh & Hf & _).
  exists w1, h1, ev1. split; [exact E|]. split; [exact Hh|exact Hf].
Defined.

Lemma bind_raise {A B : Type} (m : M A) (f : A -> M B) (w w1 : World)
    (e : exn) (ev : list Event) :
  m w = (Raise e, w1, ev) -> bind m f w = (Raise e, w1, ev).
Proof. intros E. unfold bind. rewrite E. reflexivity. Qed.

Lemma handle_undated (w : World) (h : Handler) (data : Tweet) (d : Z) :
  handler w = Some h -> date_limit h = Some d ->
  t_created_at data = None -> writable h ->
  TweetWriter.handle data w =
    (Raise (KeyError "created_at"), with_handler (Some (opened h)) w,
     opening h ++ [Wrote (target h) (gzip_compress h) data]).
Proof.
  intros Hh Hd Hc Hw. open_world w h Hh.
  unfold writable, opening, target, opened in *; cbn in *.
  run. rewrite Hc.
  destruct Hw as [->|[[nm cl] [Hf Hcl]]]; cbn in *; subst;
    [|destruct hstart]; cbn; reflexivity.
Qed.

(** X11.  A record without a date on a writer with a date limit.  [handle]
    opens the file if need be and writes the record, and only then fails
    with [KeyError] on [created_at].  In a streaming session the exception
    leaves [sample]: the counter has been incremented, the record is in the
    file, [startingup] and [do_stop] are as before, the file stays open
    (no [on_finish()]), and the rest of what arrives is not read. *)
Theorem undated_record_stops_the_stream (w : World) (h : Handler)
    (data : Tweet) (d : Z) (s : string) (rest : list Streamer.Inbound)
    (Hflag : do_continue w = true)
    (Hh : handler w = Some h)
    (Hcls : cls h = TweetWriter)
    (Hw : writable h)
    (Hd : date_limit h = Some d)
    (Htext : t_text data = Some s)
    (Hdate : t_created_at data = None) :
  TweetWriter.handle data w =
    (Raise (KeyError "created_at"), with_handler (Some (opened h)) w,
     opening h ++ [Wrote (target h) (gzip_compress h) data]) /\
  let r := Streamer.sample (Streamer.Message data :: rest) w in
  status_of r = Failed (KeyError "created_at") /\
  events_of r
  = StreamRequest StatusesSample
    :: opening h ++ [Wrote (target h) (gzip_compress h) data] /\
  rest_of r = rest /\
  exists h', handler (world_of r) = Some h' /\
    startingup h' = startingup h /\ do_stop h' = do_stop h /\
    counter h' = counter h + 1 /\
    exists f, output h' = Some f /\ f_closed f = false.
Proof.
  split; [apply (handle_undated w h data d); assumption|].
  set (h1 := set_counter (counter h + 1) h).
  set (w0 := with_connected true w).
  set (w1 := with_handler (Some h1) w0).
  assert (Hw1 : writable h1).
  { destruct Hw as [Hs|Ho]; [left; exact Hs|right; exact Ho]. }
  assert (E : Streamer.on_success data w0 =
    (Raise (KeyError "created_at"), with_handler (Some (opened h1)) w1,
     opening h ++ [Wrote (target h) (gzip_compress h) data])).
  { unfold Streamer.on_success.
    rewrite (bind_eq _ _ w0 w0 w0 []) by reflexivity.
    change (do_continue w0) with (do_continue w).
    change (handler w0) with (handler w). rewrite Hflag, Hh, Htext.
    rewrite (bind_eq _ _ w0 w1 tt [])
      by (apply counter_incr_eq; exact Hh).
    rewrite (bind_raise _ _ w1 (with_handler (Some (opened h1)) w1)
               (KeyError "created_at")
               (opening h ++ [Wrote (target h) (gzip_compress h) data])).
    - reflexivity.
    - rewrite (handle_of_writer data w1 h1 eq_refl Hcls).
      apply (handle_undated w1 h1 data d eq_refl Hd Hdate Hw1). }
  cbv zeta. unfold Streamer.sample.
  cbn [List.length Streamer.while_do_continue]. rewrite Hflag. cbv zeta.
  unfold Streamer.statuses. cbn [Streamer.receive]. fold w0. rewrite E.
  unfold prepend. cbn [status_of events_of rest_of world_of app].
  repeat split.
  exists (opened h1). split; [reflexivity|].
  unfold opened, h1. destruct h as [hcls hlimit hcounter hstop hdate hstart
    hprefix hsubdir hgz hfname hstream hrepeat hmax hout]. cbn in *.
  destruct hstart; cbn; repeat split.
  - eexists; split; reflexivity.
  - destruct Hw as [Hs|Ho]; [discriminate|exact Ho].
Qed.

Lemma undated_record_stops_the_stream_witness :
  status_of
    (Streamer.sample
       [Streamer.Message (mkTweet 1 (Some "nltk") None);
        Streamer.Message (ex_tweet 2)]
       (ex_world (ex_writer 10 (Some 1100) true false)))
  = Failed (KeyError "created_at").
Proof.
  exact (proj1 (proj2
           (undated_record_stops_the_stream
              (ex_world (ex_writer 10 (Some 1100) true false))
              (ex_writer 10 (Some 1100) true false)
              (mkTweet 1 (Some "nltk") None) 1100 "nltk"
              [Streamer.Message (ex_tweet 2)]
              eq_refl eq_refl eq_refl (or_introl eq_refl) eq_refl eq_refl
              eq_refl))).
Defined.

(** ** The facade *)

Lemma new_handler_eq (to_screen : bool) (limit : Z) (date_limit : option Z)
    (stream repeat gzip_compress : bool) (twitter_files : string) (w : World) :
  exists w1 h ev,
    Twitter.new_handler to_screen limit date_limit stream repeat
      gzip_compress twitter_files w = (Return tt, w1, ev) /\
    handler w1 = Some h /\
    do_continue w1 = do_continue w /\ connected w1 = connected w /\
    clock w1 = clock w /\
    cls h = (if to_screen then TweetViewer else TweetWriter) /\
    ev = (if to_screen then []
          else if String.eqb twitter_files "" then []
          else if existsb (String.eqb twitter_files) (dirs w) then []
          else [Mkdir twitter_files]).
Proof.
  unfold Twitter.new_handler, TweetWriter.__init__, TweetHandlerI.__init__.
  destruct w as [wh wflag wconn wclock wdirs]. destruct to_screen.
  - run. eexists; eexists; eexists. repeat split; reflexivity.
  - run. destruct (String.eqb twitter_files ""); cbn;
      [|destruct (existsb (String.eqb twitter_files) wdirs); cbn];
      eexists; eexists; eexists; repeat split; reflexivity.
Qed.

Lemma constructor_events (to_screen : bool) (twitter_files : string)
    (ds : list string) :
  let ev := if to_screen then []
            else if String.eqb twitter_files "" then []
            else if existsb (String.eqb twitter_files) ds then []
            else [Mkdir twitter_files] in
  Forall handler_event ev /\ count is_request ev = 0 /\
  count is_stream_request ev = 0.
Proof.
  destruct to_screen; cbn; [repeat split; constructor|].
  destruct (String.eqb twitter_files ""); cbn; [repeat split; constructor|].
  destruct (existsb (String.eqb twitter_files) ds); cbn;
    repeat split; repeat constructor.
Qed.

(** X12.  A search through the facade needs a keyword.  With no keyword
    the call fails with a [ValueError] and sends no request; but by then
    the handler has been constructed and registered on the query engine,
    in place of the one that was there, and a [TweetWriter] has already
    made its directory when that did not exist. *)
Theorem search_needs_keyword (follow : string) (to_screen : bool) (limit : Z)
    (date_limit : option Z) (lang : string) (repeat gzip_compress : bool)
    (twitter_files : string) (fuel : nat) (inbound : list Streamer.Inbound)
    (answers : list Query.Response) (self : Twitter.t) :
  exists q1 h ev,
    Twitter.tweets "" follow to_screen false limit date_limit lang repeat
      gzip_compress twitter_files fuel inbound answers self
    = (Failed (ValueError Twitter.no_keyword),
       Twitter.mk (Twitter.streamer self) q1, ev) /\
    handler q1 = Some h /\
    cls h = (if to_screen then TweetViewer else TweetWriter) /\
    count is_request ev = 0 /\
    ev = (if to_screen then []
          else if String.eqb twitter_files "" then []
          else if existsb (String.eqb twitter_files)
                    (dirs (Twitter.query self)) then []
          else [Mkdir twitter_files]).
Proof.
  unfold Twitter.tweets.
  destruct (new_handler_eq to_screen limit date_limit false repeat
              gzip_compress twitter_files (Twitter.query self))
    as (q1 & h & ev & E & Hh & _ & _ & _ & Hcls & Hev).
  rewrite E. cbn [String.eqb].
  exists q1, h, ev. repeat split; try assumption.
  rewrite Hev. apply constructor_events.
Qed.

Lemma facade_stream_down (keywords follow : string) (to_screen : bool)
    (limit : Z) (date_limit : option Z) (lang : string)
    (repeat gzip_compress : bool) (twitter_files : string) (fuel : nat)
    (inbound : list Streamer.Inbound) (answers : list Query.Response)
    (self self1 : Twitter.t) (ev1 : list Event) :
  Twitter.tweets keywords follow to_screen true limit date_limit lang repeat
    gzip_compress twitter_files fuel inbound answers self
  = (Finished, self1, ev1) ->
  do_continue (Twitter.streamer self1) = false.
Proof.
  unfold Twitter.tweets.
  destruct (new_handler_eq to_screen limit date_limit true repeat
              gzip_compress twitter_files (Twitter.streamer self))
    as (s1 & h & ev & E & _). rewrite E. cbv zeta.
  destruct (String.eqb keywords "" && String.eqb follow "").
  - pose proof (sample_outcome inbound s1) as O. intros H. inversion H as [[Hs H1 H2]].
    rewrite Hs in O. exact O.
  - pose proof (filter_outcome keywords follow lang inbound s1) as O.
    intros H. inversion H as [[Hs H1 H2]]. rewrite Hs in O. exact O.
Qed.

Lemma engine_exn_not_msg (x : exn) :
  engine_exn x -> x <> ValueError Streamer.msg.
Proof.
  intros [H|H] E; subst x; [cbn in H|]; discriminate.
Qed.

(** X13.  Streaming through the facade.  The call leaves the query engine
    alone; it never fails with the [ValueError] of the argument check of
    [filter] (with neither keywords nor users to follow the facade samples
    instead), and never with a [ChunkedEncodingError]; when it returns, the
    flag of the streamer is down. *)
Theorem facade_streaming_outcome (keywords follow : string) (to_screen : bool)
    (limit : Z) (date_limit : option Z) (lang : string)
    (repeat gzip_compress : bool) (twitter_files : string) (fuel : nat)
    (inbound : list Streamer.Inbound) (answers : list Query.Response)
    (self : Twitter.t) :
  exists st self' ev,
    Twitter.tweets keywords follow to_screen true limit date_limit lang
      repeat gzip_compress twitter_files fuel inbound answers self
    = (st, self', ev) /\
    Twitter.query self' = Twitter.query self /\
    match st with
    | Finished => do_continue (Twitter.streamer self') = false
    | Failed x => engine_exn x /\ x <> ValueError Streamer.msg
    | Waiting => True
    | OutOfFuel => False
    end.
Proof.
  unfold Twitter.tweets.
  destruct (new_handler_eq to_screen limit date_limit true repeat
              gzip_compress twitter_files (Twitter.streamer self))
    as (s1 & h & ev & E & _). rewrite E.
  destruct (String.eqb keywords "" && String.eqb follow "") eqn:Ek;
    cbv zeta; eexists; eexists; eexists; (split; [reflexivity|]);
    (split; [reflexivity|]); cbn [Twitter.streamer].
  - pose proof (sample_outcome inbound s1) as O.
    destruct (status_of (Streamer.sample inbound s1)); auto.
    split; [exact O|apply engine_exn_not_msg, O].
  - pose proof (filter_outcome keywords follow lang inbound s1) as O.
    destruct (status_of (Streamer.filter keywords follow lang inbound s1));
      auto.
    destruct O as [O|[_ O]]; [|congruence].
    split; [exact O|apply engine_exn_not_msg, O].
Qed.

Lemma while_flag_down (fuel : nat)
    (body : list Streamer.Inbound -> World -> Run Streamer.Inbound)
    (script : list Streamer.Inbound) (w : World) :
  do_continue w = false ->
  Streamer.while_do_continue (S fuel) body script w
  = mkRun Finished w [] script.
Proof. intros H. cbn [Streamer.while_do_continue]. rewrite H. reflexivity. Qed.

(** X14.  One [Twitter] object streams once.  After a streaming call that
    returned, every further streaming call on the same object, whatever
    its arguments, returns at once: it constructs and registers its
    handler (a [TweetWriter] makes its directory if that is missing),
    opens no connection and hands no record to the handler. *)
Theorem facade_streams_once (keywords follow keywords' follow' : string)
    (to_screen to_screen' : bool) (limit limit' : Z)
    (date_limit date_limit' : option Z) (lang lang' : string)
    (repeat repeat' gzip_compress gzip_compress' : bool)
    (twitter_files : string) (fuel fuel' : nat)
    (inbound inbound' : list Streamer.Inbound)
    (answers answers' : list Query.Response) (self : Twitter.t) :
  let first :=
    Twitter.tweets keywords follow to_screen true limit date_limit lang
      repeat gzip_compress twitter_files fuel inbound answers self in
  fst (fst first) = Finished ->
  exists self2 ev2,
    Twitter.tweets keywords' follow' to_screen' true limit' date_limit' lang'
      repeat' gzip_compress' twitter_files fuel' inbound' answers'
      (snd (fst first))
    = (Finished, self2, ev2) /\
    count is_stream_request ev2 = 0 /\
    ev2 = (if to_screen' then []
           else if String.eqb twitter_files "" then []
           else if existsb (String.eqb twitter_files)
                     (dirs (Twitter.streamer (snd (fst first)))) then []
           else [Mkdir twitter_files]) /\
    do_continue (Twitter.streamer self2) = false.
Proof.
  intros first Hfirst. destruct first as [[st self1] ev1] eqn:Efirst.
  cbn [fst snd] in *. subst st.
  pose proof (facade_stream_down keywords follow to_screen limit date_limit
                lang repeat gzip_compress twitter_files fuel inbound answers
                self self1 ev1 Efirst) as Hdown.
  unfold Twitter.tweets.
  destruct (new_handler_eq to_screen' limit' date_limit' true repeat'
              gzip_compress' twitter_files (Twitter.streamer self1))
    as (s1 & h & ev & E & _ & Hf & _ & _ & _ & Hev). rewrite E.
  rewrite Hdown in Hf.
  assert (R : (if String.eqb keywords' "" && String.eqb follow' ""
               then Streamer.sample inbound' s1
               else Streamer.filter keywords' follow' lang' inbound' s1)
              = mkRun Finished s1 [] inbound').
  { destruct (String.eqb keywords' "" && String.eqb follow' "");
      apply while_flag_down; exact Hf. }
  cbv zeta. rewrite R. cbn [status_of world_of events_of].
  eexists; eexists. split; [reflexivity|]. rewrite app_nil_r, Hev.
  destruct (constructor_events to_screen' twitter_files
              (dirs (Twitter.streamer self1))) as (_ & _ & H3).
  repeat split; assumption.
Qed.

Lemma facade_streams_once_witness :
  let self := Twitter.mk (Streamer.__init__ 0 []) (Query.__init__ 0 []) in
  let first :=
    Twitter.tweets "" "" true true 2 None "en" false false "twitter-files"
      0 [Streamer.Message (ex_tweet 1); Streamer.Message (ex_tweet 2);
         Streamer.Message (ex_tweet 3)] []
      self in
  exists self2 ev2,
    Twitter.tweets "nltk" "" true true 10 None "en" false false
      "twitter-files" 0 [Streamer.Message (ex_tweet 3)] [] (snd (fst first))
    = (Finished, self2, ev2) /\
    count is_stream_request ev2 = 0.
Proof.
  intros self first.
  destruct (facade_streams_once "" "" "nltk" "" true true 2 10 None None
              "en" "en" false false false false "twitter-files" 0%nat 0%nat
              [Streamer.Message (ex_tweet 1); Streamer.Message (ex_tweet 2);
               Streamer.Message (ex_tweet 3)]
              [Streamer.Message (ex_tweet 3)] [] [] self eq_refl)
    as (self2 & ev2 & E & Hc & _).
  exists self2, ev2. split; [exact E|exact Hc].
Defined.
